(** * oracle-solana: the string-anchoring HTTP service (app/server.ts)

    A shallow embedding of the Express server of the repository, of the
    record layout it reads back from the chain, and of the on-chain program
    as far as the server and the Anchor tests observe it.

    Conventions.
    - A JavaScript string is the list of its UTF-16 code units.
    - A [Buffer] is a list of bytes.
    - Every Number the server computes with is integer valued; it is modelled
      by the integer it denotes, and every conversion that rounds or wraps
      (Number(bigint), ToInt32, the bitwise operators) is written out. *)

From Stdlib Require Import ZArith NArith Strings.Byte Ascii String List Lia Bool.
From stdpp Require Import base option list strings gmap.
Import ListNotations.
Local Open Scope Z_scope.

Abbreviation Buffer := (list byte).
Abbreviation jsstring := (list N).

#[global] Instance byte_eq_dec : EqDecision byte := Byte.byte_eq_dec.

(* ===================================================================== *)
(** ** The JavaScript runtime: numbers, bitwise operators, buffers *)
(* ===================================================================== *)

Module JS.

(** Nearest IEEE-754 double of a non-negative integer, ties to even. *)
Definition roundMagnitude (m : Z) : Z :=
  if m <? 2 ^ 53 then m
  else
    let e := Z.log2 m - 52 in
    let q := Z.shiftr m e in
    let r := Z.land m (Z.ones e) in
    let half := Z.shiftl 1 (e - 1) in
    let q' := if r <? half then q
              else if half <? r then q + 1
              else if Z.even q then q else q + 1 in
    Z.shiftl q' e.

(** [Number(b)] for a BigInt [b], and the value of an integer literal. *)
Definition toNumber (z : Z) : Z :=
  if z <? 0 then - roundMagnitude (- z) else roundMagnitude z.

(** [ToInt32] of an integer-valued Number. *)
Definition toInt32 (x : Z) : Z :=
  let i := x mod 2 ^ 32 in
  if 2 ^ 31 <=? i then i - 2 ^ 32 else i.

(** [a ^ b], [a & b], [a >> n] on Numbers: both operands go through
    ToInt32, the result is a signed 32-bit integer. *)
Definition xor (a b : Z) : Z := Z.lxor (toInt32 a) (toInt32 b).
Definition and (a b : Z) : Z := Z.land (toInt32 a) (toInt32 b).
Definition shr (a n : Z) : Z := Z.shiftr (toInt32 a) (n mod 32).

(** [a % b] on integer-valued Numbers: the sign follows the dividend. *)
Definition rem (a b : Z) : Z := Z.rem a b.

(** [BigInt(x) * BigInt(y) & BigInt("0xFFFFFFFFFFFFFFFF")]: BigInt
    arithmetic is exact, and [&] on a negative BigInt acts on its infinite
    two's complement, as [Z.land] does. *)
Definition bigMulMask64 (x y : Z) : Z := Z.land (x * y) 0xFFFFFFFFFFFFFFFF.

Definition byteZ (b : byte) : Z := Z.of_N (Byte.to_N b).

(** Storing a Number into a [Uint8Array] slot keeps it modulo 256. *)
Definition toUint8 (z : Z) : byte :=
  default "000"%byte (Byte.of_N (Z.to_N (z mod 256))).

(** [buf[i]] in a bitwise or additive context; only ever used in range. *)
Definition bufRead (buf : Buffer) (i : Z) : Z :=
  if i <? 0 then 0 else from_option byteZ 0 (buf !! Z.to_nat i).

(** [buf[i] = v]: a write outside the buffer is ignored. *)
Definition bufWrite (buf : Buffer) (i v : Z) : Buffer :=
  if i <? 0 then buf else <[Z.to_nat i := toUint8 v]> buf.

(** [Buffer.alloc(n)]: zero filled. *)
Definition alloc (n : nat) : Buffer := replicate n "000"%byte.

(** [buf.slice(start, end)] for [0 <= start]: both ends are clamped to the
    buffer, and an empty range gives the empty buffer. *)
Definition slice (buf : Buffer) (start stop : Z) : Buffer :=
  take (Z.to_nat (stop - start)) (drop (Z.to_nat start) buf).

(** Little-endian value of a run of bytes. *)
Fixpoint leValue (bs : Buffer) : Z :=
  match bs with
  | [] => 0
  | b :: rest => byteZ b + 256 * leValue rest
  end.

(** [buf.readUInt32LE(off)], [buf.readBigUInt64LE(off)] and
    [buf.readBigInt64LE(off)]: [None] stands for the RangeError thrown
    when the read does not fit in the buffer. *)
Definition readLE (width : Z) (buf : Buffer) (off : Z) : option Z :=
  if (off <? 0) || (Z.of_nat (length buf) <? off + width) then None
  else Some (leValue (slice buf off (off + width))).

Definition readUInt32LE := readLE 4.
Definition readBigUInt64LE := readLE 8.
Definition readBigInt64LE (buf : Buffer) (off : Z) : option Z :=
  (fun u => if 2 ^ 63 <=? u then u - 2 ^ 64 else u) <$> readLE 8 buf off.

End JS.

(* ===================================================================== *)
(** ** Text encodings of the runtime *)
(* ===================================================================== *)

Module Text.

Definition b (z : Z) : byte := JS.toUint8 z.

Definition isHighSurrogate (c : Z) : bool := (0xD800 <=? c) && (c <=? 0xDBFF).
Definition isLowSurrogate (c : Z) : bool := (0xDC00 <=? c) && (c <=? 0xDFFF).

Definition replacement : Buffer := [b 0xEF; b 0xBF; b 0xBD].

Definition encodeCodePoint (cp : Z) : Buffer :=
  if cp <? 0x80 then [b cp]
  else if cp <? 0x800 then
    [b (Z.lor 0xC0 (Z.shiftr cp 6)); b (Z.lor 0x80 (Z.land cp 0x3F))]
  else if cp <? 0x10000 then
    [b (Z.lor 0xE0 (Z.shiftr cp 12));
     b (Z.lor 0x80 (Z.land (Z.shiftr cp 6) 0x3F));
     b (Z.lor 0x80 (Z.land cp 0x3F))]
  else
    [b (Z.lor 0xF0 (Z.shiftr cp 18));
     b (Z.lor 0x80 (Z.land (Z.shiftr cp 12) 0x3F));
     b (Z.lor 0x80 (Z.land (Z.shiftr cp 6) 0x3F));
     b (Z.lor 0x80 (Z.land cp 0x3F))].

(** [Buffer.from(s, "utf8")]: a surrogate pair becomes one four-byte
    sequence, a lone surrogate becomes U+FFFD. *)
Fixpoint utf8Encode (s : jsstring) : Buffer :=
  match s with
  | [] => []
  | c :: rest =>
    let c := Z.of_N c in
    if isHighSurrogate c then
      match rest with
      | d :: rest' =>
        let d := Z.of_N d in
        if isLowSurrogate d then
          encodeCodePoint (0x10000 + (c - 0xD800) * 0x400 + (d - 0xDC00))
            ++ utf8Encode rest'
        else replacement ++ utf8Encode rest
      | [] => replacement
      end
    else if isLowSurrogate c then replacement ++ utf8Encode rest
    else encodeCodePoint c ++ utf8Encode rest
  end.

(** What a lead byte announces: a code unit at once, the continuation
    bytes still expected (how many, the bits so far, and the range allowed
    for the next byte), or an ill-formed byte. *)
Inductive Lead :=
  | LeadAscii (c : Z)
  | LeadMulti (need : nat) (bits lo hi : Z)
  | LeadBad.

Definition lead (x : Z) : Lead :=
  if x <=? 0x7F then LeadAscii x
  else if (0xC2 <=? x) && (x <=? 0xDF) then
    LeadMulti 1 (Z.land x 0x1F) 0x80 0xBF
  else if (0xE0 <=? x) && (x <=? 0xEF) then
    LeadMulti 2 (Z.land x 0xF)
      (if x =? 0xE0 then 0xA0 else 0x80) (if x =? 0xED then 0x9F else 0xBF)
  else if (0xF0 <=? x) && (x <=? 0xF4) then
    LeadMulti 3 (Z.land x 0x7)
      (if x =? 0xF0 then 0x90 else 0x80) (if x =? 0xF4 then 0x8F else 0xBF)
  else LeadBad.

(** UTF-16 code units of a code point. *)
Definition utf16 (cp : Z) : jsstring :=
  if cp <? 0x10000 then [Z.to_N cp]
  else
    let c := cp - 0x10000 in
    [Z.to_N (0xD800 + Z.shiftr c 10); Z.to_N (0xDC00 + Z.land c 0x3FF)].

Definition pushBits (bits x : Z) : Z := Z.lor (Z.shiftl bits 6) (Z.land x 0x3F).

(** [buf.toString("utf8")]: every maximal ill-formed run of bytes decodes
    to one U+FFFD. [pending] is the sequence under way, if any. *)
Fixpoint utf8DecodeFrom (pending : option (nat * Z * Z * Z)) (bs : Buffer)
  : jsstring :=
  match bs with
  | [] => match pending with None => [] | Some _ => [0xFFFD%N] end
  | x :: rest =>
    let x := JS.byteZ x in
    let fresh (before : jsstring) :=
      match lead x with
      | LeadAscii c => before ++ Z.to_N c :: utf8DecodeFrom None rest
      | LeadMulti n bits lo hi =>
          before ++ utf8DecodeFrom (Some (n, bits, lo, hi)) rest
      | LeadBad => before ++ 0xFFFD%N :: utf8DecodeFrom None rest
      end in
    match pending with
    | None => fresh []
    | Some (n, bits, lo, hi) =>
      if (lo <=? x) && (x <=? hi) then
        match n with
        | S (S n') => utf8DecodeFrom (Some (S n', pushBits bits x, 0x80, 0xBF)) rest
        | _ => utf16 (pushBits bits x) ++ utf8DecodeFrom None rest
        end
      else fresh [0xFFFD%N]
    end
  end.

Definition utf8Decode : Buffer -> jsstring := utf8DecodeFrom None.

(** A string literal of the source, given by its UTF-8 text. *)
Definition lit (s : string) : jsstring := utf8Decode (list_byte_of_string s).

(** [buf.toString("hex")]. *)
Definition hexDigit (d : Z) : N :=
  Z.to_N (if d <? 10 then 48 + d else 87 + d).

Definition toHex (buf : Buffer) : jsstring :=
  flat_map (fun x => [hexDigit (JS.byteZ x / 16); hexDigit (JS.byteZ x mod 16)]) buf.

(** The value of a Base64 character, in the standard or the URL-safe
    alphabet. *)
Definition unbase64 (c : Z) : option Z :=
  if (65 <=? c) && (c <=? 90) then Some (c - 65)
  else if (97 <=? c) && (c <=? 122) then Some (c - 71)
  else if (48 <=? c) && (c <=? 57) then Some (c + 4)
  else if (c =? 43) || (c =? 45) then Some 62
  else if (c =? 47) || (c =? 95) then Some 63
  else None.

(** The sextets the decoder sees. It reads every UTF-16 code unit through
    its low byte (U+0141 is read as [A], U+013D as [=]); characters
    outside the alphabet are skipped, the first [=] ends the input. *)
Fixpoint sextets (s : jsstring) : list Z :=
  match s with
  | [] => []
  | c :: rest =>
    let c := Z.land (Z.of_N c) 0xFF in
    if c =? 61 then []
    else match unbase64 c with
         | Some v => v :: sextets rest
         | None => sextets rest
         end
  end.

Fixpoint packSextets (vs : list Z) : Buffer :=
  match vs with
  | v0 :: v1 :: v2 :: v3 :: rest =>
      b (Z.lor (Z.shiftl v0 2) (Z.shiftr v1 4))
      :: b (Z.lor (Z.shiftl (Z.land v1 0xF) 4) (Z.shiftr v2 2))
      :: b (Z.lor (Z.shiftl (Z.land v2 0x3) 6) v3)
      :: packSextets rest
  | [v0; v1; v2] =>
      [b (Z.lor (Z.shiftl v0 2) (Z.shiftr v1 4));
       b (Z.lor (Z.shiftl (Z.land v1 0xF) 4) (Z.shiftr v2 2))]
  | [v0; v1] => [b (Z.lor (Z.shiftl v0 2) (Z.shiftr v1 4))]
  | _ => []
  end.

(** [Buffer.from(s, "base64")]: lenient, it never throws. *)
Definition base64Decode (s : jsstring) : Buffer := packSextets (sextets s).

Definition hexVal (c : Z) : option Z :=
  if (48 <=? c) && (c <=? 57) then Some (c - 48)
  else if (65 <=? c) && (c <=? 70) then Some (c - 55)
  else if (97 <=? c) && (c <=? 102) then Some (c - 87)
  else None.

(** Where [decodeURIComponent] stands inside an escape. *)
Inductive Escape :=
  | Plain
  | SawPercent
  | SawHex (h : Z).

(** [decodeURIComponent(s)]: [None] stands for the URIError thrown on a
    malformed escape or on escapes that are not well-formed UTF-8. *)
Fixpoint decodeURIFrom (pending : option (nat * Z * Z * Z)) (esc : Escape)
    (s : jsstring) : option jsstring :=
  match s with
  | [] => match pending, esc with None, Plain => Some [] | _, _ => None end
  | c :: rest =>
    let z := Z.of_N c in
    match esc with
    | Plain =>
      if z =? 37 then decodeURIFrom pending SawPercent rest
      else match pending with
           | None => (c ::.) <$> decodeURIFrom None Plain rest
           | Some _ => None
           end
    | SawPercent =>
      match hexVal z with
      | Some h => decodeURIFrom pending (SawHex h) rest
      | None => None
      end
    | SawHex h =>
      match hexVal z with
      | None => None
      | Some l =>
        let x := h * 16 + l in
        match pending with
        | None =>
          match lead x with
          | LeadAscii a => (Z.to_N a ::.) <$> decodeURIFrom None Plain rest
          | LeadMulti n bits lo hi => decodeURIFrom (Some (n, bits, lo, hi)) Plain rest
          | LeadBad => None
          end
        | Some (n, bits, lo, hi) =>
          if (lo <=? x) && (x <=? hi) then
            match n with
            | S (S n') =>
                decodeURIFrom (Some (S n', pushBits bits x, 0x80, 0xBF)) Plain rest
            | _ => (utf16 (pushBits bits x) ++.) <$> decodeURIFrom None Plain rest
            end
          else None
        end
      end
    end
  end.

Definition decodeURIComponent : jsstring -> option jsstring :=
  decodeURIFrom None Plain.

(** [bs58.encode(bytes)], the text of a public key: one [1] for every
    leading zero byte, then the digits in base 58 of the big-endian
    number the bytes spell. *)
Definition base58Alphabet : jsstring :=
  lit "123456789ABCDEFGHJKLMNPQRSTUVWXYZabcdefghijkmnopqrstuvwxyz".

Definition beValue (bytes : Buffer) : Z :=
  fold_left (fun acc x => acc * 256 + JS.byteZ x) bytes 0.

(** The digits of [v], most significant first; [fuel] bounds their
    number (two digits a byte are enough). *)
Fixpoint base58Digits (fuel : nat) (v : Z) (digits : jsstring) : jsstring :=
  match fuel with
  | O => digits
  | S fuel' =>
    if v <=? 0 then digits
    else base58Digits fuel' (v / 58)
           (default 0%N (base58Alphabet !! Z.to_nat (v mod 58)) :: digits)
  end.

Fixpoint leadingZeros (bytes : Buffer) : nat :=
  match bytes with
  | x :: rest => if JS.byteZ x =? 0 then S (leadingZeros rest) else O
  | [] => O
  end.

Definition toBase58 (bytes : Buffer) : jsstring :=
  replicate (leadingZeros bytes) 49%N
  ++ base58Digits (2 * length bytes) (beValue bytes) [].

(** [s.includes(p)]. *)
Fixpoint startsWith (s p : jsstring) : bool :=
  match p, s with
  | [], _ => true
  | x :: p', y :: s' => bool_decide (x = y) && startsWith s' p'
  | _ :: _, [] => false
  end.

Fixpoint includes (s p : jsstring) : bool :=
  startsWith s p || match s with [] => false | _ :: s' => includes s' p end.

End Text.

(* ===================================================================== *)
(** ** server.ts: md5Hash *)
(* ===================================================================== *)

Definition FNV_PRIME : Z := 0x100000001b3.

(** [let hash = 0xcbf29ce484222325]: a Number literal, hence the nearest
    double of the written value. *)
Definition hash0 : Z := JS.toNumber 0xcbf29ce484222325.

(** [Buffer.alloc(16)] followed by [result[i] = i] for [i] in 0..15. *)
Definition initResult : Buffer :=
  fold_left (fun result i => JS.bufWrite result i i) (seqZ 0 16) (JS.alloc 16).

(** One iteration of [for (const byte of bytes)]. *)
Definition md5Step (st : Z * Buffer) (byte : byte) : Z * Buffer :=
  let '(hash, result) := st in
  let byte := JS.byteZ byte in
  let hash := JS.xor hash byte in
  let hash := JS.toNumber (JS.bigMulMask64 hash FNV_PRIME) in
  let idx := JS.rem hash 16 in
  let result := JS.bufWrite result idx (JS.and (JS.bufRead result idx + byte) 0xFF) in
  let i1 := JS.rem (idx + 1) 16 in
  let result := JS.bufWrite result i1
                  (JS.xor (JS.bufRead result i1) (JS.and (JS.shr hash 8) 0xFF)) in
  let i3 := JS.rem (idx + 3) 16 in
  let result := JS.bufWrite result i3
                  (JS.xor (JS.bufRead result i3) (JS.and (JS.shr hash 16) 0xFF)) in
  let i7 := JS.rem (idx + 7) 16 in
  let result := JS.bufWrite result i7
                  (JS.xor (JS.bufRead result i7) (JS.and (JS.shr hash 24) 0xFF)) in
  (hash, result).

(** The loop of [md5Hash] over the bytes of [Buffer.from(data, "utf8")]. *)
Definition md5Loop (bytes : Buffer) : Z * Buffer :=
  fold_left md5Step bytes (hash0, initResult).

Definition md5Hash (data : jsstring) : Buffer :=
  snd (md5Loop (Text.utf8Encode data)).

(* ===================================================================== *)
(** ** The fingerprint as the specification words it (section 4.1) *)
(* ===================================================================== *)

Module Spec.

Definition OFFSET_BASIS : Z := 0xcbf29ce484222325.

Definition initBuf : list Z := seqZ 0 16.

Definition getZ (buf : list Z) (i : Z) : Z := default 0 (buf !! Z.to_nat i).
Definition setZ (buf : list Z) (i v : Z) : list Z := <[Z.to_nat i := v]> buf.

Definition step (st : Z * list Z) (byte : byte) : Z * list Z :=
  let '(acc, buf) := st in
  let v := JS.byteZ byte in
  let acc := Z.lxor acc v in
  let acc := (acc * 0x100000001b3) mod 2 ^ 64 in
  let idx := acc mod 16 in
  let buf := setZ buf idx ((getZ buf idx + v) mod 256) in
  let j1 := (idx + 1) mod 16 in
  let buf := setZ buf j1 (Z.lxor (getZ buf j1) (Z.shiftr acc 8 mod 256)) in
  let j3 := (idx + 3) mod 16 in
  let buf := setZ buf j3 (Z.lxor (getZ buf j3) (Z.shiftr acc 16 mod 256)) in
  let j7 := (idx + 7) mod 16 in
  let buf := setZ buf j7 (Z.lxor (getZ buf j7) (Z.shiftr acc 24 mod 256)) in
  (acc, buf).

Definition Fingerprint (bytes : Buffer) : list Z :=
  snd (fold_left step bytes (OFFSET_BASIS, initBuf)).

End Spec.

(* ===================================================================== *)
(** ** The IDL (target/types/my_first_app.ts) *)
(* ===================================================================== *)

(** A public key is its 32 bytes; its Base58 text is left out, so that a
    response carries the key where the source carries [toBase58()]. *)
Abbreviation PublicKey := (list byte).

Module Idl.

(** [accounts[0].discriminator] of [stringRecord]. *)
Definition stringRecordDiscriminator : Buffer :=
  map JS.toUint8 [72; 85; 57; 84; 139; 0; 181; 63].

(** The [stringRecord] struct; [originalString] holds the UTF-8 bytes. *)
Record StringRecord := {
  originalString : Buffer;
  signature : Buffer;
  timestamp : Z;
  owner : PublicKey;
  costLamports : Z
}.

End Idl.

(* ===================================================================== *)
(** ** The chain, as the server and the tests observe it *)
(* ===================================================================== *)

Module Chain.

Abbreviation TxId := nat.

(** The program's accounts in the order [getProgramAccounts] lists them,
    the cluster clock, the lamports an anchoring costs, and the number of
    transactions processed so far. *)
Record State := {
  accounts : list (PublicKey * Buffer);
  clock : Z;
  fee : Z;
  processed : TxId
}.

Inductive ProgramError :=
  | AlreadyExists
  | EmptyString
  | StringTooLong.

(** Modelled from the spec: the message of the error a rejected
    instruction raises in the client. The on-chain program
    (programs/my-first-app/src/lib.rs) is not among the sources; the texts
    are the ones the Anchor tests assert on (an empty string is refused
    with a message naming [EmptyString], a create on an occupied address
    with [custom program error: 0x0]), and the error name for the third. *)
Definition errorMessage (e : ProgramError) : jsstring :=
  match e with
  | AlreadyExists => Text.lit "custom program error: 0x0"
  | EmptyString => Text.lit "EmptyString"
  | StringTooLong => Text.lit "StringTooLong"
  end.

(** [width] little-endian bytes of [v], two's complement when negative. *)
Fixpoint leBytes (width : nat) (v : Z) : Buffer :=
  match width with
  | O => []
  | S width' => JS.toUint8 v :: leBytes width' (Z.shiftr v 8)
  end.

(** Modelled from the spec: the record codec of section 4.3 (the encoder
    lives in the on-chain program, which is not among the sources):
    discriminator, u32 length, the string, the fingerprint, i64 timestamp,
    owner, u64 cost, little-endian, no padding. *)
Definition encode (r : Idl.StringRecord) : Buffer :=
  Idl.stringRecordDiscriminator
  ++ leBytes 4 (Z.of_nat (length (Idl.originalString r)))
  ++ Idl.originalString r
  ++ Idl.signature r
  ++ leBytes 8 (Idl.timestamp r)
  ++ Idl.owner r
  ++ leBytes 8 (Idl.costLamports r).

(** Modelled from the spec: the fingerprint the program stores is the
    algorithm of section 4.1. *)
Definition fingerprint (bytes : Buffer) : Buffer :=
  map JS.toUint8 (Spec.Fingerprint bytes).

Definition lookup (address : PublicKey) (st : State) : option Buffer :=
  snd <$> List.find (fun a => bool_decide (a.1 = address)) (accounts st).

(** Modelled from the spec: the Record of section 3 that an accepted
    [storeString] creates (the on-chain program is not among the
    sources): the bytes of the string, their fingerprint, the time, the
    submitter and the fee. *)
Definition newRecord (input : jsstring) (payer : PublicKey) (st : State)
  : Idl.StringRecord :=
  {| Idl.originalString := Text.utf8Encode input;
     Idl.signature := fingerprint (Text.utf8Encode input);
     Idl.timestamp := clock st;
     Idl.owner := payer;
     Idl.costLamports := fee st |}.

(** Modelled from the spec: the [storeString] instruction (the on-chain
    program is not among the sources). Sections 4.5, 6 and 7: a
    zero-length string is [EmptyString], more than 200 bytes is
    [StringTooLong], both before any write; then an atomic
    create-if-absent of the encoded record at the [record] address, which
    answers [AlreadyExists] when the address is occupied and otherwise
    the transaction identifier. *)
Definition storeString (input : jsstring) (record payer : PublicKey)
    (st : State) : ProgramError + (TxId * State) :=
  let bytes := Text.utf8Encode input in
  if bool_decide (bytes = []) then inl EmptyString
  else if 200 <? Z.of_nat (length bytes) then inl StringTooLong
  else if bool_decide (is_Some (lookup record st)) then inl AlreadyExists
  else
    inr (processed st,
         {| accounts := accounts st ++ [(record, encode (newRecord input payer st))];
            clock := clock st;
            fee := fee st;
            processed := S (processed st) |}).

End Chain.

(* ===================================================================== *)
(** ** server.ts: process state, exceptions, responses *)
(* ===================================================================== *)

(** The calls the server makes to the cluster. *)
Inductive Rpc :=
  | RpcStoreString (input : jsstring) (record : PublicKey)
  | RpcConfirmTransaction (tx : Chain.TxId)
  | RpcGetAccountInfo (address : PublicKey)
  | RpcGetProgramAccounts.

(** The cluster behind [connection], the module-level
    [uploadedSignatures] set, the wallet's key, and the calls made to the
    cluster so far (latest last). *)
Record World := {
  chain : Chain.State;
  uploadedSignatures : gset (list N);
  payer : PublicKey;
  rpcLog : list Rpc
}.

Definition logRpc (call : Rpc) (w : World) : World :=
  {| chain := chain w; uploadedSignatures := uploadedSignatures w;
     payer := payer w; rpcLog := rpcLog w ++ [call] |}.

Definition setChain (c : Chain.State) (w : World) : World :=
  {| chain := c; uploadedSignatures := uploadedSignatures w;
     payer := payer w; rpcLog := rpcLog w |}.

(** What a handler's [try] block can throw. A [RangeError] comes from a
    Buffer read that does not fit, a [TypeError] from reading [.data] of
    [null], a [URIError] from [decodeURIComponent]; [AccountMissing] is
    the [Error] raised when the read-back gives up; [Error] carries the
    message of a rejected transaction. *)
Inductive Exception :=
  | Error (message : jsstring)
  | AccountMissing (address : PublicKey)
  | RangeError
  | TypeError
  | URIError.

(** Handler code: it reads and updates the world and may throw. *)
Definition M (A : Type) : Type := World -> (Exception + A) * World.

#[global] Instance handler_ret : MRet M := fun A a w => (inr a, w).
#[global] Instance handler_bind : MBind M := fun A B k m w =>
  match m w with
  | (inl e, w') => (inl e, w')
  | (inr a, w') => k a w'
  end.

Definition throw {A} (e : Exception) : M A := fun w => (inl e, w).

(** A Buffer read: [None] is the RangeError. *)
Definition orRangeError {A} (o : option A) : M A :=
  match o with Some a => mret a | None => throw RangeError end.

Inductive ErrorDetail :=
  | DataFieldRequired
  | LengthExceeds (len : nat)
  | DataParamRequired
  | InvalidAddress
  | AccountDataTooShort
  | InvalidStringLength
  | Thrown (e : Exception).

Record ApiResponse (T : Type) := {
  status : Z;
  success : bool;
  code : Z;
  message : jsstring;
  data : option T;
  error : option ErrorDetail
}.
Arguments status {T}. Arguments success {T}. Arguments code {T}.
Arguments message {T}. Arguments data {T}. Arguments error {T}.

Module StoreResult.
(** [interface StoreResult], without the derived [costSol]. *)
Record t := {
  signature : jsstring;
  recordAddress : PublicKey;
  costLamports : Z;
  transactionSignature : Chain.TxId;
  timestamp : Z;
  originalString : jsstring
}.
End StoreResult.

Module QueryResult.
(** [interface QueryResult], without the derived [costSol]. *)
Record t := {
  exists_ : bool;
  recordAddress : option PublicKey;
  signature : option jsstring;
  timestamp : option Z;
  owner : option PublicKey;
  costLamports : option Z;
  originalString : option jsstring
}.
End QueryResult.

(* ===================================================================== *)
(** ** server.ts: error table and the [catch] blocks *)
(* ===================================================================== *)

Import Text.

(** [ERROR_CODES], in the order [Object.entries] lists it. *)
Definition ERROR_CODES : list (jsstring * (Z * jsstring)) :=
  [ (lit "AlreadyExists", (1001, lit "该字符串已经上链，不能重复提交"));
    (lit "EmptyString", (1002, lit "字符串不能为空"));
    (lit "StringTooLong", (1003, lit "字符串长度超过限制（最大200字符）"));
    (lit "AccountNotFound", (1004, lit "账户不存在"));
    (lit "InsufficientFunds", (1005, lit "SOL 余额不足")) ].

Definition internalError : Z * jsstring := (500, lit "服务器内部错误").

(** [ERROR_CODES.key]. *)
Definition errorEntry (key : string) : Z * jsstring :=
  from_option snd internalError
    (List.find (fun kv => bool_decide (kv.1 = lit key)) ERROR_CODES).

(** [error.message]. The message of the read-back's [Error] ends with
    the Base58 text of the address; the message of a RangeError is given
    without its quotation marks and numbers (digits, which spell no key
    of [ERROR_CODES] and no [0x1]). *)
Definition thrownMessage (e : Exception) : jsstring :=
  match e with
  | Error m => m
  | AccountMissing address => lit "Account does not exist: " ++ toBase58 address
  | RangeError => lit "The value of offset is out of range."
  | TypeError => lit "Cannot read properties of null (reading 'data')"
  | URIError => lit "URI malformed"
  end.

(** The [catch] block of POST /api/store: the first key of [ERROR_CODES]
    contained in the message decides, then a message containing [0x1]
    is an [InsufficientFunds] whatever was found. *)
Definition classifyStoreError (msg : jsstring) : Z * jsstring :=
  let found :=
    from_option snd internalError
      (List.find (fun kv => includes msg kv.1) ERROR_CODES) in
  if includes msg (lit "0x1") then errorEntry "InsufficientFunds" else found.

Definition storeFailure {T} (e : Exception) : ApiResponse T :=
  let '(errorCode, errorMessage) := classifyStoreError (thrownMessage e) in
  {| status := if errorCode =? 500 then 500 else 400;
     success := false; code := errorCode; message := errorMessage;
     data := None; error := Some (Thrown e) |}.

(** The [catch] block of the GET handlers. *)
Definition queryFailure {T} (e : Exception) : ApiResponse T :=
  {| status := 500; success := false; code := 500;
     message := lit "服务器内部错误"; data := None; error := Some (Thrown e) |}.

Definition ok {T} (msg : string) (result : T) : ApiResponse T :=
  {| status := 200; success := true; code := 0; message := lit msg;
     data := Some result; error := None |}.

Definition badRequest {T} (c : Z) (msg : jsstring) (detail : ErrorDetail)
  : ApiResponse T :=
  {| status := 400; success := false; code := c; message := msg;
     data := None; error := Some detail |}.

(* ===================================================================== *)
(** ** server.ts: calls to the cluster *)
(* ===================================================================== *)

(** The calls below are those of a healthy cluster: each one returns, an
    instruction is refused only by the program, and a read sees every
    account created before it. A call that throws for another reason
    (transport, fees) or a read that lags behind a confirmed transaction
    is not modelled. A statement about any store that succeeded takes
    that success as its hypothesis. *)

(** [program.methods.storeString(input).accounts({record, payer, ..})
    .signers([recordKeypair]).rpc()]. *)
Definition sendStoreString (input : jsstring) (record : PublicKey)
  : M Chain.TxId :=
  fun w =>
    let w := logRpc (RpcStoreString input record) w in
    match Chain.storeString input record (payer w) (chain w) with
    | inl e => (inl (Error (Chain.errorMessage e)), w)
    | inr (tx, c) => (inr tx, setChain c w)
    end.

Definition confirmTransaction (tx : Chain.TxId) : M unit :=
  fun w => (inr (), logRpc (RpcConfirmTransaction tx) w).

Definition getAccountInfo (address : PublicKey) : M (option Buffer) :=
  fun w => (inr (Chain.lookup address (chain w)),
            logRpc (RpcGetAccountInfo address) w).

Definition getProgramAccounts : M (list (PublicKey * Buffer)) :=
  fun w => (inr (Chain.accounts (chain w)), logRpc RpcGetProgramAccounts w).

(** [new anchor.web3.PublicKey(bytes)] for at most 32 bytes: the key of
    the big-endian number they spell. *)
Definition newPublicKey (bytes : Buffer) : PublicKey :=
  replicate (32 - length bytes) "000"%byte ++ bytes.

(* ===================================================================== *)
(** ** POST /api/store *)
(* ===================================================================== *)

(** [req.body.data]. *)
Inductive JsonValue :=
  | JUndefined
  | JNull
  | JString (s : jsstring)
  | JOther.

(** [Buffer.from(data, "base64").toString("utf8")]. *)
Definition decodeBase64Text (data : jsstring) : jsstring :=
  utf8Decode (base64Decode data).

(** The read-back loop: [retries] attempts are left. *)
Fixpoint readBack (retries : nat) (recordAddress : PublicKey) : M Buffer :=
  match retries with
  | O => throw TypeError
  | S retries' =>
    accountInfo ← getAccountInfo recordAddress;
    match accountInfo with
    | Some accountData => mret accountData
    | None =>
      match retries' with
      | O => throw (AccountMissing recordAddress)
      | S _ => readBack retries' recordAddress
      end
    end
  end.

(** The object [record] the handler builds from the account data. *)
Record ParsedRecord := {
  originalString : jsstring;
  signature : Buffer;
  timestamp : Z;
  owner : PublicKey;
  costLamports : Z
}.

(** "手动解析账户数据": no length is checked on this path. *)
Definition parseAccountData (accountData : Buffer) : M ParsedRecord :=
  let offset := 8 in
  strLen ← orRangeError (JS.readUInt32LE accountData offset);
  let offset := offset + 4 in
  let originalString := utf8Decode (JS.slice accountData offset (offset + strLen)) in
  let offset := offset + strLen in
  let signature := JS.slice accountData offset (offset + 16) in
  let offset := offset + 16 in
  timestamp ← orRangeError (JS.readBigInt64LE accountData offset);
  let timestamp := JS.toNumber timestamp in
  let offset := offset + 8 in
  let owner := newPublicKey (JS.slice accountData offset (offset + 32)) in
  let offset := offset + 32 in
  costLamports ← orRangeError (JS.readBigUInt64LE accountData offset);
  let costLamports := JS.toNumber costLamports in
  mret {| originalString := originalString; signature := signature;
          timestamp := timestamp; owner := owner;
          costLamports := costLamports |}.

(** The [try] block from the transaction on. *)
Definition storeBody (recordAddress : PublicKey) (decodedData : jsstring)
  : M StoreResult.t :=
  txSignature ← sendStoreString decodedData recordAddress;
  confirmTransaction txSignature;;
  accountData ← readBack 5 recordAddress;
  record ← parseAccountData accountData;
  mret {| StoreResult.signature := toHex (signature record);
          StoreResult.recordAddress := recordAddress;
          StoreResult.costLamports := costLamports record;
          StoreResult.transactionSignature := txSignature;
          StoreResult.timestamp := timestamp record;
          StoreResult.originalString := decodedData |}.

(** The handler. [recordKeypair] is the public key of the keypair that
    [anchor.web3.Keypair.generate()] returns for this request. *)
Definition apiStore (recordKeypair : PublicKey) (data : JsonValue) (w : World)
  : ApiResponse StoreResult.t * World :=
  match data with
  | JString data =>
    if 200 <? Z.of_nat (length data) then
      (badRequest (errorEntry "StringTooLong").1 (errorEntry "StringTooLong").2
         (LengthExceeds (length data)), w)
    else
      let decodedData := decodeBase64Text data in
      let signatureBuffer := md5Hash decodedData in
      let recordAddress := recordKeypair in
      match storeBody recordAddress decodedData w with
      | (inr result, w') => (ok "上链成功" result, w')
      | (inl e, w') => (storeFailure e, w')
      end
  | _ => (badRequest 400 (lit "请求参数错误") DataFieldRequired, w)
  end.

(* ===================================================================== *)
(** ** GET /api/query/:data *)
(* ===================================================================== *)

Definition notFound (originalString signatureHex : jsstring) : QueryResult.t :=
  {| QueryResult.exists_ := false;
     QueryResult.recordAddress := None;
     QueryResult.signature := Some signatureHex;
     QueryResult.timestamp := None;
     QueryResult.owner := None;
     QueryResult.costLamports := None;
     QueryResult.originalString := Some originalString |}.

(** [for (const account of accounts)]: [inr (Some r)] is the response
    returned from inside the loop, [inr None] the loop running out, [inl]
    an exception thrown by a read. *)
Fixpoint scanAccounts (signatureHex : jsstring)
    (accounts : list (PublicKey * Buffer)) : Exception + option QueryResult.t :=
  match accounts with
  | [] => inr None
  | (pubkey, accountData) :: rest =>
    let len := Z.of_nat (length accountData) in
    if len <? 8 + 4 + 16 + 8 + 32 + 8 then scanAccounts signatureHex rest
    else
      let offset := 8 in
      match JS.readUInt32LE accountData offset with
      | None => inl RangeError
      | Some strLen =>
        let offset := offset + 4 in
        if (200 <? strLen) || (len <? strLen + offset) then
          scanAccounts signatureHex rest
        else
          let storedString :=
            utf8Decode (JS.slice accountData offset (offset + strLen)) in
          let offset := offset + strLen in
          let storedSignature := JS.slice accountData offset (offset + 16) in
          let storedSignatureHex := toHex storedSignature in
          if bool_decide (storedSignatureHex = signatureHex) then
            let offset := offset + 16 in
            match JS.readBigInt64LE accountData offset with
            | None => inl RangeError
            | Some timestamp =>
              let timestamp := JS.toNumber timestamp in
              let offset := offset + 8 in
              let owner :=
                newPublicKey (JS.slice accountData offset (offset + 32)) in
              let offset := offset + 32 in
              match JS.readBigUInt64LE accountData offset with
              | None => inl RangeError
              | Some costLamports =>
                let costLamports := JS.toNumber costLamports in
                inr (Some
                  {| QueryResult.exists_ := true;
                     QueryResult.recordAddress := Some pubkey;
                     QueryResult.signature := Some signatureHex;
                     QueryResult.timestamp := Some timestamp;
                     QueryResult.owner := Some owner;
                     QueryResult.costLamports := Some costLamports;
                     QueryResult.originalString := Some storedString |})
              end
            end
          else scanAccounts signatureHex rest
      end
  end.

(** The [try] block once [decodeURIComponent] has returned. *)
Definition queryBody (originalString : jsstring)
  : M (ApiResponse QueryResult.t) :=
  let signatureBuffer := md5Hash originalString in
  let signatureHex := toHex signatureBuffer in
  fun w =>
    if negb (bool_decide (signatureHex ∈ uploadedSignatures w)) then
      (inr (ok "未找到上链记录" (notFound originalString signatureHex)), w)
    else
      (accounts ← getProgramAccounts;
       match scanAccounts signatureHex accounts with
       | inl e => throw e
       | inr (Some found) => mret (ok "查询成功，记录已上链" found)
       | inr None =>
           mret (ok "未找到上链记录（缓存过期）"
                   (notFound originalString signatureHex))
       end) w.

(** The handler; [data] is [req.params.data]. *)
Definition apiQuery (data : jsstring) (w : World)
  : ApiResponse QueryResult.t * World :=
  if bool_decide (data = []) then
    (badRequest 400 (lit "请求参数错误") DataParamRequired, w)
  else
    match decodeURIComponent data with
    | None => (queryFailure URIError, w)
    | Some originalString =>
      match queryBody originalString w with
      | (inr response, w') => (response, w')
      | (inl e, w') => (queryFailure e, w')
      end
    end.

(* ===================================================================== *)
(** ** GET /api/record/:address *)
(* ===================================================================== *)

(** [req.params.address] as the handler tells it apart: empty, not the
    text of a key, or the text of the key [k]. *)
Inductive AddressParam :=
  | AddressEmpty
  | AddressInvalid
  | AddressOf (k : PublicKey).

(** "解析账户数据": the checks and reads on the account data. A refusal is
    the detail of the 400 answer. *)
Definition decodeRecord (recordAddress : PublicKey) (accountData : Buffer)
  : M (ErrorDetail + QueryResult.t) :=
  let len := Z.of_nat (length accountData) in
  if len <? 8 + 4 + 16 + 8 + 32 + 8 then mret (inl AccountDataTooShort)
  else
    let offset := 8 in
    strLen ← orRangeError (JS.readUInt32LE accountData offset);
    let offset := offset + 4 in
    if (1000 <? strLen) || (len - 16 - 8 - 32 - 8 <? strLen + offset) then
      mret (inl InvalidStringLength)
    else
      let storedString :=
        utf8Decode (JS.slice accountData offset (offset + strLen)) in
      let offset := offset + strLen in
      let signatureBytes := JS.slice accountData offset (offset + 16) in
      let signatureHex := toHex signatureBytes in
      let offset := offset + 16 in
      timestamp ← orRangeError (JS.readBigInt64LE accountData offset);
      let timestamp := JS.toNumber timestamp in
      let offset := offset + 8 in
      let owner := newPublicKey (JS.slice accountData offset (offset + 32)) in
      let offset := offset + 32 in
      costLamports ← orRangeError (JS.readBigUInt64LE accountData offset);
      let costLamports := JS.toNumber costLamports in
      mret (inr {| QueryResult.exists_ := true;
                   QueryResult.recordAddress := Some recordAddress;
                   QueryResult.signature := Some signatureHex;
                   QueryResult.timestamp := Some timestamp;
                   QueryResult.owner := Some owner;
                   QueryResult.costLamports := Some costLamports;
                   QueryResult.originalString := Some storedString |}).

Definition recordBody (recordAddress : PublicKey)
  : M (ApiResponse QueryResult.t) :=
  accountInfo ← getAccountInfo recordAddress;
  match accountInfo with
  | None =>
    mret (ok "未找到上链记录"
            {| QueryResult.exists_ := false;
               QueryResult.recordAddress := Some recordAddress;
               QueryResult.signature := None;
               QueryResult.timestamp := None;
               QueryResult.owner := None;
               QueryResult.costLamports := None;
               QueryResult.originalString := None |})
  | Some accountData =>
    decoded ← decodeRecord recordAddress accountData;
    match decoded with
    | inl detail => mret (badRequest 400 (lit "账户数据格式错误") detail)
    | inr found => mret (ok "查询成功，记录已上链" found)
    end
  end.

Definition apiRecord (address : AddressParam) (w : World)
  : ApiResponse QueryResult.t * World :=
  match address with
  | AddressEmpty => (badRequest 400 (lit "请求参数错误") DataParamRequired, w)
  | AddressInvalid => (badRequest 400 (lit "地址格式错误") InvalidAddress, w)
  | AddressOf recordAddress =>
    match recordBody recordAddress w with
    | (inr response, w') => (response, w')
    | (inl e, w') => (queryFailure e, w')
    end
  end.

(* ===================================================================== *)
(** ** Scenarios *)
(* ===================================================================== *)

Definition key (n : Z) : PublicKey := replicate 32 (JS.toUint8 n).

(** A freshly started server in front of an empty cluster. *)
Definition freshWorld : World :=
  {| chain := {| Chain.accounts := []; Chain.clock := 1700000000;
                 Chain.fee := 2498640; Chain.processed := 0 |};
     uploadedSignatures := ∅;
     payer := key 7;
     rpcLog := [] |}.


(** A record laid out as the codec expects: a fingerprint of 16 bytes and
    an owner of 32 bytes around a string of at most 200 bytes. *)
Definition wellFormed (r : Idl.StringRecord) : Prop :=
  (length (Idl.originalString r) <= 200)%nat
  /\ length (Idl.signature r) = 16%nat
  /\ length (Idl.owner r) = 32%nat.

(** The 64-bit fields as the server reads them back. *)
Definition readTimestamp (r : Idl.StringRecord) : Z :=
  let u := Idl.timestamp r mod 2 ^ 64 in
  JS.toNumber (if 2 ^ 63 <=? u then u - 2 ^ 64 else u).

Definition readCost (r : Idl.StringRecord) : Z :=
  JS.toNumber (Idl.costLamports r mod 2 ^ 64).

(** The answer of the scan on a matching, well-formed record. *)
Definition foundAt (pubkey : PublicKey) (signatureHex : jsstring)
    (r : Idl.StringRecord) : QueryResult.t :=
  {| QueryResult.exists_ := true;
     QueryResult.recordAddress := Some pubkey;
     QueryResult.signature := Some signatureHex;
     QueryResult.timestamp := Some (readTimestamp r);
     QueryResult.owner := Some (Idl.owner r);
     QueryResult.costLamports := Some (readCost r);
     QueryResult.originalString := Some (utf8Decode (Idl.originalString r)) |}.

(** A world step that leaves the cluster, the cache and the wallet as they
    were: at most the log of calls grows. *)
Definition quiet (w w' : World) : Prop :=
  chain w' = chain w
  /\ uploadedSignatures w' = uploadedSignatures w
  /\ payer w' = payer w
  /\ exists calls, rpcLog w' = rpcLog w ++ calls.

(** A string the program accepts: between 1 and 200 bytes of UTF-8. *)
Definition accepted (input : jsstring) : Prop :=
  utf8Encode input <> [] /\ (length (utf8Encode input) <= 200)%nat.

(** A sequence of store requests served one after the other, each with
    the key generated for it. *)
Fixpoint runStores (requests : list (PublicKey * JsonValue)) (w : World)
  : list (ApiResponse StoreResult.t) * World :=
  match requests with
  | [] => ([], w)
  | (recordKeypair, body) :: rest =>
    let '(response, w1) := apiStore recordKeypair body w in
    let '(responses, w2) := runStores rest w1 in
    (response :: responses, w2)
  end.

(** The addresses of the stores that succeeded. *)
Definition successAddresses (responses : list (ApiResponse StoreResult.t))
  : list PublicKey :=
  omap (fun response => StoreResult.recordAddress <$> data response) responses.

(** The accounts that hold the records [records], each at its address. *)
Definition encodeAll (records : list (PublicKey * Idl.StringRecord))
  : list (PublicKey * Buffer) :=
  map (fun kr => (kr.1, Chain.encode kr.2)) records.

(** The Base64 text of "Hello", stored twice on a fresh server, each time
    with the key generated for the request. *)
Definition helloBase64 : jsstring := lit "SGVsbG8=".

Definition firstStore : ApiResponse StoreResult.t * World :=
  apiStore (key 1) (JString helloBase64) freshWorld.

Definition secondStore : ApiResponse StoreResult.t * World :=
  apiStore (key 2) (JString helloBase64) (snd firstStore).


(** A record of [text] carrying the fingerprint the server computes for
    [text]. *)
Definition recordOf (text : jsstring) : Idl.StringRecord :=
  {| Idl.originalString := utf8Encode text;
     Idl.signature := md5Hash text;
     Idl.timestamp := 1700000000;
     Idl.owner := key 7;
     Idl.costLamports := 2498640 |}.

(** A server with the cache [cache] in front of a cluster that holds
    [accountData] at the address [key 1]. *)
Definition worldWith (cache : gset (list N)) (accountData : Buffer) : World :=
  {| chain := {| Chain.accounts := [(key 1, accountData)];
                 Chain.clock := 1700000000; Chain.fee := 2498640;
                 Chain.processed := 1 |};
     uploadedSignatures := cache;
     payer := key 7;
     rpcLog := [] |}.


(** An account whose string has 300 bytes. *)
Definition longRecord : Idl.StringRecord :=
  {| Idl.originalString := replicate 300 "A"%byte;
     Idl.signature := md5Hash (lit "Hello");
     Idl.timestamp := 1700000000;
     Idl.owner := key 7;
     Idl.costLamports := 2498640 |}.

Definition longWorld : World := worldWith ∅ (Chain.encode longRecord).

(** An account of 76 bytes: a string of 48 bytes, the fingerprint of
    "Hello", and nothing behind it. *)
Definition truncatedData : Buffer :=
  Idl.stringRecordDiscriminator ++ Chain.leBytes 4 48
  ++ replicate 48 "A"%byte ++ md5Hash (lit "Hello").

Definition truncatedWorld : World :=
  worldWith {[ toHex (md5Hash (lit "Hello")) ]} truncatedData.

(** "gb" and "ha" have the same [md5Hash]; the record of "ha" is on the
    cluster and its fingerprint is in the cache. *)
Definition collisionWorld : World :=
  worldWith {[ toHex (md5Hash (lit "ha")) ]} (Chain.encode (recordOf (lit "ha"))).


(** The string length GET /api/record reads at offset 8. *)
Definition strLenAt (accountData : Buffer) : Z :=
  JS.leValue (JS.slice accountData 8 (8 + 4)).

(** What the scan requires of an account to answer with it: the three
    checks of the loop and the equality of the hex fingerprints. *)
Definition candidate (signatureHex : jsstring) (accountData : Buffer) : bool :=
  let len := Z.of_nat (length accountData) in
  (8 + 4 + 16 + 8 + 32 + 8 <=? len)
  && (strLenAt accountData <=? 200)
  && (strLenAt accountData + (8 + 4) <=? len)
  && bool_decide
       (toHex (JS.slice accountData (8 + 4 + strLenAt accountData)
                 (8 + 4 + strLenAt accountData + 16)) = signatureHex).

(** The requests the server handles, a store coming with the key
    generated for it. *)
Inductive Request :=
  | PostStore (recordKeypair : PublicKey) (body : JsonValue)
  | GetQuery (data : jsstring)
  | GetRecord (address : AddressParam).

Definition serve (request : Request) (w : World) : World :=
  match request with
  | PostStore recordKeypair body => snd (apiStore recordKeypair body w)
  | GetQuery data => snd (apiQuery data w)
  | GetRecord address => snd (apiRecord address w)
  end.

Definition serveAll (requests : list Request) (w : World) : World :=
  fold_left (fun w request => serve request w) requests w.


(* ===================================================================== *)
(** * Properties *)
(* ===================================================================== *)

(** ** Bytes and little-endian values *)

Lemma byteZ_toUint8 (z : Z) : JS.byteZ (JS.toUint8 z) = z mod 256.
Proof.
  unfold JS.byteZ, JS.toUint8.
  assert (Hr : 0 <= z mod 256 < 256) by (apply Z.mod_pos_bound; lia).
  destruct (Byte.of_N (Z.to_N (z mod 256))) as [x|] eqn:E; simpl.
  - apply Byte.to_of_N in E. rewrite E. lia.
  - apply Byte.of_N_None_iff in E. lia.
Qed.

Lemma byteZ_range (x : byte) : 0 <= JS.byteZ x < 256.
Proof.
  unfold JS.byteZ. pose proof (Byte.to_N_bounded x). lia.
Qed.

Lemma length_leBytes (n : nat) (v : Z) : length (Chain.leBytes n v) = n.
Proof. revert v. induction n; intros; simpl; auto. Qed.

Lemma leValue_leBytes (n : nat) (v : Z) :
  JS.leValue (Chain.leBytes n v) = v mod 2 ^ (8 * Z.of_nat n).
Proof.
  revert v. induction n as [|n IH]; intros v.
  - simpl. rewrite Z.mod_1_r. reflexivity.
  - cbn [Chain.leBytes JS.leValue]. rewrite byteZ_toUint8, IH.
    rewrite Z.shiftr_div_pow2 by lia.
    replace (8 * Z.of_nat (S n)) with (8 + 8 * Z.of_nat n) by lia.
    rewrite Z.pow_add_r by lia.
    change (2 ^ 8) with 256.
    rewrite (Z.rem_mul_r v 256 (2 ^ (8 * Z.of_nat n))) by lia.
    reflexivity.
Qed.

Lemma slice_middle (pre x post : Buffer) (start stop : Z) :
  start = Z.of_nat (length pre) ->
  stop = start + Z.of_nat (length x) ->
  JS.slice (pre ++ x ++ post) start stop = x.
Proof.
  intros -> ->. unfold JS.slice.
  rewrite Nat2Z.id, drop_app_length.
  replace (Z.to_nat _) with (length x) by lia.
  apply take_app_length.
Qed.

Lemma readLE_middle (width : Z) (pre x post : Buffer) (off : Z) :
  off = Z.of_nat (length pre) ->
  width = Z.of_nat (length x) ->
  JS.readLE width (pre ++ x ++ post) off = Some (JS.leValue x).
Proof.
  intros Hoff Hw. unfold JS.readLE.
  rewrite !length_app.
  destruct (off <? 0) eqn:E1; [apply Z.ltb_lt in E1; lia|].
  destruct (_ <? off + width)%Z eqn:E2; [apply Z.ltb_lt in E2; lia|].
  simpl. do 2 f_equal. apply slice_middle; lia.
Qed.

(** ** The record layout *)

Section Layout.
Variable r : Idl.StringRecord.
Hypothesis Hsig : length (Idl.signature r) = 16%nat.
Hypothesis Howner : length (Idl.owner r) = 32%nat.

Let n : Z := Z.of_nat (length (Idl.originalString r)).
Let D := Idl.stringRecordDiscriminator.
Let L := Chain.leBytes 4 n.
Let T := Chain.leBytes 8 (Idl.timestamp r).
Let C := Chain.leBytes 8 (Idl.costLamports r).

Local Ltac layout :=
  subst n D L T C; unfold Chain.encode;
  rewrite <- ?app_assoc, ?app_nil_r; reflexivity.
Local Ltac lengths :=
  subst n D L T C;
  rewrite ?length_app, ?length_leBytes, ?Hsig, ?Howner;
  change (length Idl.stringRecordDiscriminator) with 8%nat; lia.

Lemma length_encode : Z.of_nat (length (Chain.encode r)) = 8 + 4 + n + 16 + 8 + 32 + 8.
Proof. unfold Chain.encode. lengths. Qed.

Lemma encode_strLen :
  JS.readUInt32LE (Chain.encode r) 8 = Some (n mod 2 ^ 32).
Proof.
  unfold JS.readUInt32LE.
  replace (Chain.encode r) with (D ++ L ++ (Idl.originalString r ++
    Idl.signature r ++ T ++ Idl.owner r ++ C)) by layout.
  rewrite (readLE_middle 4 D L) by lengths.
  subst L. rewrite leValue_leBytes. reflexivity.
Qed.

Lemma encode_string :
  JS.slice (Chain.encode r) (8 + 4) (8 + 4 + n) = Idl.originalString r.
Proof.
  replace (Chain.encode r) with ((D ++ L) ++ Idl.originalString r ++
    (Idl.signature r ++ T ++ Idl.owner r ++ C)) by layout.
  apply slice_middle; lengths.
Qed.

Lemma encode_signature :
  JS.slice (Chain.encode r) (8 + 4 + n) (8 + 4 + n + 16) = Idl.signature r.
Proof.
  replace (Chain.encode r) with ((D ++ L ++ Idl.originalString r) ++
    Idl.signature r ++ (T ++ Idl.owner r ++ C)) by layout.
  apply slice_middle; lengths.
Qed.

Lemma encode_timestamp :
  JS.readLE 8 (Chain.encode r) (8 + 4 + n + 16)
  = Some (Idl.timestamp r mod 2 ^ 64).
Proof.
  replace (Chain.encode r) with ((D ++ L ++ Idl.originalString r ++
    Idl.signature r) ++ T ++ (Idl.owner r ++ C)) by layout.
  rewrite (readLE_middle 8 _ T) by lengths.
  subst T. rewrite leValue_leBytes. reflexivity.
Qed.

Lemma encode_owner :
  JS.slice (Chain.encode r) (8 + 4 + n + 16 + 8) (8 + 4 + n + 16 + 8 + 32)
  = Idl.owner r.
Proof.
  replace (Chain.encode r) with ((D ++ L ++ Idl.originalString r ++
    Idl.signature r ++ T) ++ Idl.owner r ++ C) by layout.
  apply slice_middle; lengths.
Qed.

Lemma encode_cost :
  JS.readLE 8 (Chain.encode r) (8 + 4 + n + 16 + 8 + 32)
  = Some (Idl.costLamports r mod 2 ^ 64).
Proof.
  replace (Chain.encode r) with ((D ++ L ++ Idl.originalString r ++
    Idl.signature r ++ T ++ Idl.owner r) ++ C ++ []) by layout.
  rewrite (readLE_middle 8 _ C) by lengths.
  subst C. rewrite leValue_leBytes. reflexivity.
Qed.

Lemma newPublicKey_owner : newPublicKey (Idl.owner r) = Idl.owner r.
Proof. unfold newPublicKey. rewrite Howner. reflexivity. Qed.

End Layout.

(** ** The scan on encoded records *)

Lemma scan_encoded (signatureHex : jsstring) (pubkey : PublicKey)
    (r : Idl.StringRecord) (rest : list (PublicKey * Buffer)) :
  wellFormed r ->
  scanAccounts signatureHex ((pubkey, Chain.encode r) :: rest)
  = if bool_decide (toHex (Idl.signature r) = signatureHex)
    then inr (Some (foundAt pubkey signatureHex r))
    else scanAccounts signatureHex rest.
Proof.
  intros (Hlen & Hsig & Howner).
  cbn [scanAccounts]. cbv zeta.
  rewrite (length_encode r Hsig Howner), (encode_strLen r Hsig Howner).
  set (n := Z.of_nat (length (Idl.originalString r))).
  assert (Hn : 0 <= n <= 200) by (subst n; lia).
  rewrite (Z.mod_small n) by lia.
  destruct (_ <? 8 + 4 + 16 + 8 + 32 + 8) eqn:E1; [apply Z.ltb_lt in E1; lia|].
  destruct (200 <? n) eqn:E2; [apply Z.ltb_lt in E2; lia|].
  destruct (_ <? n + (8 + 4)) eqn:E3; [apply Z.ltb_lt in E3; lia|].
  cbn [orb].
  subst n.
  rewrite (encode_signature r Hsig Howner).
  destruct (bool_decide _); [|reflexivity].
  unfold JS.readBigInt64LE, JS.readBigUInt64LE.
  rewrite (encode_timestamp r Hsig Howner). cbn [fmap option_fmap option_map].
  rewrite (encode_cost r Hsig Howner), (encode_owner r Hsig Howner).
  rewrite (encode_string r Hsig Howner), (newPublicKey_owner r Howner).
  reflexivity.
Qed.

(** The scan looks at the queried string through its fingerprint only, and
    an account too short to hold a record is passed over. *)
Lemma scan_short (signatureHex : jsstring) (pubkey : PublicKey)
    (accountData : Buffer) (rest : list (PublicKey * Buffer)) :
  Z.of_nat (length accountData) < 8 + 4 + 16 + 8 + 32 + 8 ->
  scanAccounts signatureHex ((pubkey, accountData) :: rest)
  = scanAccounts signatureHex rest.
Proof.
  intros H. cbn [scanAccounts]. cbv zeta.
  destruct (_ <? _) eqn:E; [reflexivity|apply Z.ltb_ge in E; lia].
Qed.

(** ** The read-back of POST /api/store *)

Lemma parse_encoded (r : Idl.StringRecord) (w : World) :
  wellFormed r ->
  parseAccountData (Chain.encode r) w
  = (inr {| originalString := utf8Decode (Idl.originalString r);
            signature := Idl.signature r;
            timestamp := readTimestamp r;
            owner := Idl.owner r;
            costLamports := readCost r |}, w).
Proof.
  intros (Hlen & Hsig & Howner).
  unfold parseAccountData. cbv zeta.
  rewrite (encode_strLen r Hsig Howner).
  set (n := Z.of_nat (length (Idl.originalString r))).
  assert (Hn : 0 <= n <= 200) by (subst n; lia).
  rewrite (Z.mod_small n) by lia.
  unfold mbind, handler_bind, orRangeError, mret, handler_ret.
  unfold JS.readBigInt64LE, JS.readBigUInt64LE. subst n.
  rewrite (encode_timestamp r Hsig Howner). cbn [fmap option_fmap option_map].
  rewrite (encode_cost r Hsig Howner), (encode_owner r Hsig Howner).
  rewrite (encode_string r Hsig Howner), (encode_signature r Hsig Howner).
  rewrite (newPublicKey_owner r Howner).
  reflexivity.
Qed.

(** ** The stored fingerprint has 16 bytes *)

Lemma length_step (st : Z * list Z) (x : byte) :
  length (snd (Spec.step st x)) = length (snd st).
Proof.
  destruct st as [acc buf]. unfold Spec.step, Spec.setZ. cbn [snd].
  rewrite !length_insert. reflexivity.
Qed.

Lemma length_Fingerprint (bytes : Buffer) :
  length (Spec.Fingerprint bytes) = 16%nat.
Proof.
  unfold Spec.Fingerprint.
  assert (H : forall st, length (snd (fold_left Spec.step bytes st)) = length (snd st)).
  { induction bytes as [|x bytes IH]; intros st; [reflexivity|].
    cbn [fold_left]. rewrite IH. apply length_step. }
  rewrite H. reflexivity.
Qed.

Lemma newRecord_wellFormed (input : jsstring) (payer : PublicKey)
    (st : Chain.State) :
  (length (utf8Encode input) <= 200)%nat ->
  length payer = 32%nat ->
  wellFormed (Chain.newRecord input payer st).
Proof.
  intros Hlen Hp. repeat split; cbn; [assumption| |assumption].
  unfold Chain.fingerprint. rewrite length_map. apply length_Fingerprint.
Qed.

(** ** Looking accounts up *)

Lemma lookup_snoc_new (address : PublicKey) (accountData : Buffer)
    (st st' : Chain.State) :
  Chain.lookup address st = None ->
  Chain.accounts st' = Chain.accounts st ++ [(address, accountData)] ->
  Chain.lookup address st' = Some accountData.
Proof.
  unfold Chain.lookup. intros Hnone ->.
  induction (Chain.accounts st) as [|[a d] l IH]; cbn in *.
  - rewrite bool_decide_eq_true_2 by reflexivity. reflexivity.
  - destruct (bool_decide (a = address)); [discriminate|]. apply IH, Hnone.
Qed.

Lemma lookup_grows (address : PublicKey) (extra : list (PublicKey * Buffer))
    (st st' : Chain.State) :
  is_Some (Chain.lookup address st) ->
  Chain.accounts st' = Chain.accounts st ++ extra ->
  is_Some (Chain.lookup address st').
Proof.
  unfold Chain.lookup. intros Hsome ->.
  induction (Chain.accounts st) as [|[a d] l IH]; cbn in *.
  - destruct Hsome as [? [=]].
  - destruct (bool_decide (a = address)); [eauto|]. apply IH, Hsome.
Qed.

(** ** What the program accepts *)

Lemma storeString_accepts (input : jsstring) (record payer : PublicKey)
    (st : Chain.State) :
  accepted input ->
  Chain.lookup record st = None ->
  Chain.storeString input record payer st
  = inr (Chain.processed st,
         {| Chain.accounts := Chain.accounts st
              ++ [(record, Chain.encode (Chain.newRecord input payer st))];
            Chain.clock := Chain.clock st;
            Chain.fee := Chain.fee st;
            Chain.processed := S (Chain.processed st) |}).
Proof.
  intros [Hne Hlen] Hfree. unfold Chain.storeString. cbv zeta.
  rewrite bool_decide_eq_false_2 by assumption.
  destruct (200 <? _) eqn:E; [apply Z.ltb_lt in E; lia|].
  rewrite bool_decide_eq_false_2; [reflexivity|].
  rewrite Hfree. intros [? [=]].
Qed.

Lemma storeString_inv (input : jsstring) (record payer : PublicKey)
    (st st' : Chain.State) (tx : Chain.TxId) :
  Chain.storeString input record payer st = inr (tx, st') ->
  accepted input
  /\ Chain.lookup record st = None
  /\ tx = Chain.processed st
  /\ Chain.accounts st'
     = Chain.accounts st ++ [(record, Chain.encode (Chain.newRecord input payer st))].
Proof.
  unfold Chain.storeString, accepted. cbv zeta.
  case_bool_decide as Hne; [discriminate|].
  destruct (200 <? _) eqn:E; [discriminate|]. apply Z.ltb_ge in E.
  case_bool_decide as Hocc; [discriminate|].
  intros [= <- <-]. cbn.
  repeat split; try assumption; try lia.
  destruct (Chain.lookup record st) eqn:El; [|reflexivity].
  exfalso. apply Hocc. eauto.
Qed.

(** ** Running handler code *)

Lemma bind_run {A B} (m : M A) (k : A -> M B) (w w1 : World) (a : A) :
  m w = (inr a, w1) -> (m ≫= k) w = k a w1.
Proof. intros H. unfold mbind, handler_bind. rewrite H. reflexivity. Qed.

Lemma bind_inr {A B} (m : M A) (k : A -> M B) (w w' : World) (b : B) :
  (m ≫= k) w = (inr b, w') ->
  exists a w1, m w = (inr a, w1) /\ k a w1 = (inr b, w').
Proof.
  unfold mbind, handler_bind.
  destruct (m w) as [[e|a] w1]; [discriminate|]. eauto.
Qed.

Lemma bind_outcome {A B} (m : M A) (k : A -> M B) (w w' : World)
    (out : Exception + B) :
  (m ≫= k) w = (out, w') ->
  (exists e, m w = (inl e, w') /\ out = inl e)
  \/ (exists a w1, m w = (inr a, w1) /\ k a w1 = (out, w')).
Proof.
  unfold mbind, handler_bind.
  destruct (m w) as [[e|a] w1]; [intros [= <- <-]|]; eauto.
Qed.

Lemma quiet_refl (w : World) : quiet w w.
Proof. repeat split. exists []. symmetry. apply app_nil_r. Qed.

Lemma quiet_trans (w1 w2 w3 : World) : quiet w1 w2 -> quiet w2 w3 -> quiet w1 w3.
Proof.
  unfold quiet. intros (-> & -> & -> & c1 & H1) (-> & -> & -> & c2 & H2).
  repeat split. exists (c1 ++ c2). rewrite H2, H1. symmetry. apply app_assoc.
Qed.

Lemma quiet_logRpc (call : Rpc) (w : World) : quiet w (logRpc call w).
Proof. repeat split. exists [call]. reflexivity. Qed.

Lemma orRangeError_quiet {A} (o : option A) (w w' : World) (out : Exception + A) :
  orRangeError o w = (out, w') -> w' = w.
Proof. destruct o; intros [= _ <-]; reflexivity. Qed.

Lemma readBack_quiet (retries : nat) (address : PublicKey) (w w' : World)
    (out : Exception + Buffer) :
  readBack retries address w = (out, w') -> quiet w w'.
Proof.
  revert w. induction retries as [|n IH]; intros w; cbn [readBack].
  - intros [= _ <-]. apply quiet_refl.
  - unfold mbind, handler_bind, getAccountInfo.
    destruct (Chain.lookup address (chain w)).
    + intros [= _ <-]. apply quiet_logRpc.
    + destruct n.
      * intros [= _ <-]. apply quiet_logRpc.
      * intros H. apply IH in H.
        eapply quiet_trans; [apply quiet_logRpc|exact H].
Qed.

Lemma readBack_found (n : nat) (address : PublicKey) (accountData : Buffer)
    (w : World) :
  Chain.lookup address (chain w) = Some accountData ->
  readBack (S n) address w
  = (inr accountData, logRpc (RpcGetAccountInfo address) w).
Proof.
  intros H. cbn [readBack]. unfold mbind, handler_bind, getAccountInfo.
  rewrite H. reflexivity.
Qed.

Lemma parseAccountData_quiet (accountData : Buffer) (w w' : World)
    (out : Exception + ParsedRecord) :
  parseAccountData accountData w = (out, w') -> w' = w.
Proof.
  unfold parseAccountData. cbv zeta. unfold mbind, handler_bind.
  destruct (orRangeError (JS.readUInt32LE accountData 8) w)
    as [[e|strLen] w1] eqn:E1; apply orRangeError_quiet in E1; subst w1;
    [intros [= _ <-]; reflexivity|].
  destruct (orRangeError (JS.readBigInt64LE accountData _) w)
    as [[e|ts] w1] eqn:E2; apply orRangeError_quiet in E2; subst w1;
    [intros [= _ <-]; reflexivity|].
  destruct (orRangeError (JS.readBigUInt64LE accountData _) w)
    as [[e|c] w1] eqn:E3; apply orRangeError_quiet in E3; subst w1;
    intros [= _ <-]; reflexivity.
Qed.

(** ** POST /api/store, step by step *)

(** The world once the instruction [input] at [record] has been accepted. *)
Lemma sendStoreString_inr (input : jsstring) (record : PublicKey)
    (w w' : World) (tx : Chain.TxId) :
  sendStoreString input record w = (inr tx, w') ->
  accepted input
  /\ Chain.lookup record (chain w) = None
  /\ tx = Chain.processed (chain w)
  /\ Chain.accounts (chain w')
     = Chain.accounts (chain w)
       ++ [(record, Chain.encode (Chain.newRecord input (payer w) (chain w)))]
  /\ uploadedSignatures w' = uploadedSignatures w
  /\ payer w' = payer w
  /\ rpcLog w' = rpcLog w ++ [RpcStoreString input record].
Proof.
  unfold sendStoreString. cbv zeta. cbn [payer chain logRpc].
  destruct (Chain.storeString _ _ _ _) as [e|[tx' c]] eqn:E; [discriminate|].
  intros [= <- <-]. apply storeString_inv in E as (Ha & Hf & Ht & Hacc).
  cbn. repeat split; try assumption; apply Ha.
Qed.

(** A refused instruction changes nothing but the log of calls. *)
Lemma sendStoreString_inl (input : jsstring) (record : PublicKey)
    (w w' : World) (e : Exception) :
  sendStoreString input record w = (inl e, w') ->
  w' = logRpc (RpcStoreString input record) w.
Proof.
  unfold sendStoreString. cbv zeta. cbn [payer chain logRpc].
  destruct (Chain.storeString _ _ _ _) as [e'|[tx' c]]; [|discriminate].
  intros [= _ <-]. reflexivity.
Qed.

Lemma storeBody_inv (k : PublicKey) (decodedData : jsstring) (w w' : World)
    (r : StoreResult.t) :
  storeBody k decodedData w = (inr r, w') ->
  accepted decodedData
  /\ Chain.lookup k (chain w) = None
  /\ Chain.accounts (chain w')
     = Chain.accounts (chain w)
       ++ [(k, Chain.encode (Chain.newRecord decodedData (payer w) (chain w)))]
  /\ uploadedSignatures w' = uploadedSignatures w
  /\ StoreResult.recordAddress r = k
  /\ StoreResult.originalString r = decodedData
  /\ In (RpcStoreString decodedData k) (rpcLog w').
Proof.
  unfold storeBody. intros H.
  apply bind_inr in H as (tx & w1 & Hsend & H).
  apply bind_inr in H as ([] & w2 & Hconf & H).
  apply bind_inr in H as (accountData & w3 & Hread & H).
  apply bind_inr in H as (record & w4 & Hparse & H).
  injection H as <- <-.
  apply sendStoreString_inr in Hsend as (Ha & Hfree & _ & Hacc & Hcache & _ & Hlog).
  injection Hconf as <-.
  apply readBack_quiet in Hread as (Hc3 & Hu3 & _ & calls & Hl3).
  apply parseAccountData_quiet in Hparse as ->.
  cbn in Hc3, Hu3, Hl3.
  repeat split; try apply Ha; try assumption; cbn.
  - rewrite Hc3. exact Hacc.
  - rewrite Hu3. exact Hcache.
  - rewrite Hl3, Hlog. rewrite !in_app_iff. left. left. right. left. reflexivity.
Qed.

Lemma storeBody_effect (k : PublicKey) (decodedData : jsstring) (w w' : World)
    (out : Exception + StoreResult.t) :
  storeBody k decodedData w = (out, w') ->
  uploadedSignatures w' = uploadedSignatures w
  /\ payer w' = payer w
  /\ exists extra,
       Chain.accounts (chain w') = Chain.accounts (chain w) ++ extra.
Proof.
  unfold storeBody. intros H.
  apply bind_outcome in H as [(e & Hsend & _)|(tx & w1 & Hsend & H)].
  { apply sendStoreString_inl in Hsend as ->. cbn.
    repeat split. exists []. symmetry. apply app_nil_r. }
  apply sendStoreString_inr in Hsend as (_ & _ & _ & Hacc & Hcache & Hpayer & _).
  assert (Hq : quiet w1 w').
  { apply bind_outcome in H as [(e & Hconf & _)|([] & w2 & Hconf & H)];
      [discriminate|].
    injection Hconf as <-.
    eapply quiet_trans; [apply quiet_logRpc|].
    apply bind_outcome in H as [(e & Hread & _)|(accountData & w3 & Hread & H)].
    { eapply readBack_quiet, Hread. }
    eapply quiet_trans; [eapply readBack_quiet, Hread|].
    apply bind_outcome in H as [(e & Hparse & _)|(record & w4 & Hparse & H)].
    { apply parseAccountData_quiet in Hparse as ->. apply quiet_refl. }
    apply parseAccountData_quiet in Hparse as ->.
    injection H as _ <-. apply quiet_refl. }
  destruct Hq as (Hc & Hu & Hp & _).
  rewrite Hc, Hu, Hp. repeat split; try assumption. eauto.
Qed.

(** ** POST /api/store as a whole *)

Lemma apiStore_data (k : PublicKey) (body : JsonValue) (w : World)
    (r : StoreResult.t) :
  data (fst (apiStore k body w)) = Some r ->
  exists s,
    body = JString s
    /\ Z.of_nat (length s) <= 200
    /\ storeBody k (decodeBase64Text s) w = (inr r, snd (apiStore k body w)).
Proof.
  unfold apiStore.
  destruct body as [| |s|]; try discriminate.
  destruct (200 <? _) eqn:E; [discriminate|]. apply Z.ltb_ge in E.
  cbv zeta.
  destruct (storeBody k (decodeBase64Text s) w) as [[e|r'] w'] eqn:Hb.
  - unfold storeFailure. destruct (classifyStoreError _). discriminate.
  - cbn. intros [= <-]. eauto.
Qed.

Lemma apiStore_effect (k : PublicKey) (body : JsonValue) (w : World) :
  uploadedSignatures (snd (apiStore k body w)) = uploadedSignatures w
  /\ payer (snd (apiStore k body w)) = payer w
  /\ exists extra,
       Chain.accounts (chain (snd (apiStore k body w)))
       = Chain.accounts (chain w) ++ extra.
Proof.
  assert (Hsame : uploadedSignatures w = uploadedSignatures w
                  /\ payer w = payer w
                  /\ exists extra, Chain.accounts (chain w)
                                   = Chain.accounts (chain w) ++ extra).
  { repeat split. exists []. symmetry. apply app_nil_r. }
  unfold apiStore.
  destruct body as [| |s|]; try exact Hsame.
  destruct (200 <? _); [exact Hsame|]. cbv zeta.
  destruct (storeBody k (decodeBase64Text s) w) as [[e|r'] w'] eqn:Hb;
    apply storeBody_effect in Hb; exact Hb.
Qed.

(** ** Runs of stores *)

Lemma apiStore_occupies (k : PublicKey) (body : JsonValue) (w : World)
    (r : StoreResult.t) :
  data (fst (apiStore k body w)) = Some r ->
  StoreResult.recordAddress r = k
  /\ Chain.lookup k (chain w) = None
  /\ is_Some (Chain.lookup k (chain (snd (apiStore k body w)))).
Proof.
  intros H. apply apiStore_data in H as (s & -> & _ & Hb).
  apply storeBody_inv in Hb as (_ & Hfree & Hacc & _ & Hk & _).
  repeat split; try assumption.
  erewrite lookup_snoc_new; [eauto|exact Hfree|exact Hacc].
Qed.

Lemma apiStore_keeps (a k : PublicKey) (body : JsonValue) (w : World) :
  is_Some (Chain.lookup a (chain w)) ->
  is_Some (Chain.lookup a (chain (snd (apiStore k body w)))).
Proof.
  intros H. destruct (apiStore_effect k body w) as (_ & _ & extra & He).
  eapply lookup_grows; eassumption.
Qed.

Lemma successAddresses_cons (response : ApiResponse StoreResult.t)
    (responses : list (ApiResponse StoreResult.t)) :
  successAddresses (response :: responses)
  = match data response with
    | Some r => StoreResult.recordAddress r :: successAddresses responses
    | None => successAddresses responses
    end.
Proof. unfold successAddresses. cbn. destruct (data response); reflexivity. Qed.

Lemma runStores_free (requests : list (PublicKey * JsonValue)) (w : World)
    (a : PublicKey) :
  a ∈ successAddresses (fst (runStores requests w)) ->
  Chain.lookup a (chain w) = None.
Proof.
  revert w. induction requests as [|[k body] rest IH]; intros w.
  - cbn. intros H. inversion H.
  - cbn [runStores].
    destruct (apiStore k body w) as [response w1] eqn:E1.
    destruct (runStores rest w1) as [responses w2] eqn:E2.
    cbn [fst successAddresses omap list_omap].
    pose proof (apiStore_occupies k body w) as Hocc.
    pose proof (apiStore_keeps a k body w) as Hkeep.
    rewrite E1 in Hocc, Hkeep. cbn [fst snd] in Hocc, Hkeep.
    assert (Htail : a ∈ successAddresses responses -> Chain.lookup a (chain w) = None).
    { intros Hin. specialize (IH w1). rewrite E2 in IH. specialize (IH Hin).
      destruct (Chain.lookup a (chain w)) eqn:El; [|reflexivity].
      destruct Hkeep as [x Hx]; [eauto|]. congruence. }
    destruct (data response) as [r|] eqn:Ed; cbn.
    + intros Hin. apply elem_of_cons in Hin as [->|Hin]; [|auto].
      destruct (Hocc r eq_refl) as (<- & Hfree & _). exact Hfree.
    + exact Htail.
Qed.

(** ** The fingerprint *)

(** The literal [0xcbf29ce484222325] is not a double: [hash] starts from
    its rounding. *)
Lemma hash0_rounded : hash0 = 0xcbf29ce484222000 /\ hash0 <> Spec.OFFSET_BASIS.
Proof. split; [reflexivity|discriminate]. Qed.

(** On a single byte, whichever it is, [md5Hash] and the fingerprint of
    the specification differ. *)
Lemma md5Loop_single_byte (x : byte) :
  map JS.byteZ (snd (md5Loop [x])) <> Spec.Fingerprint [x].
Proof. destruct x; vm_compute; discriminate. Qed.

(** C1: [md5Hash] is meant to be the 64-bit algorithm of the
    specification ("u64", "64 bits" in its comments) but is not: on the
    one-byte string "a" it returns 61 05 02 fe 04 05 06 82 08 .. 0f where
    the specified algorithm gives 00 01 02 85 04 05 06 07 08 09 0a 0b 6d
    e1 0e 0e. *)
Theorem md5Hash_departs_from_fingerprint :
  map JS.byteZ (md5Hash (lit "a"))
    = [97; 5; 2; 254; 4; 5; 6; 130; 8; 9; 10; 11; 12; 13; 14; 15]
  /\ Spec.Fingerprint (utf8Encode (lit "a"))
    = [0; 1; 2; 133; 4; 5; 6; 7; 8; 9; 10; 11; 109; 225; 14; 14].
Proof. split; vm_compute; reflexivity. Qed.

(** C8: the fingerprint of the empty byte sequence is the bytes 0, 1, ..,
    15: the loop does not run and the buffer is returned as initialised. *)
Theorem md5Hash_empty :
  md5Loop [] = (hash0, initResult)
  /\ map JS.byteZ (md5Hash [])
     = [0; 1; 2; 3; 4; 5; 6; 7; 8; 9; 10; 11; 12; 13; 14; 15].
Proof. split; reflexivity. Qed.

(** ** Addresses of stores *)

(** C2 as stated fails: the same string stored twice gets two different
    addresses, the keys generated for the two requests. *)
Lemma store_address_varies :
  StoreResult.recordAddress <$> data (fst firstStore) = Some (key 1)
  /\ StoreResult.recordAddress <$> data (fst secondStore) = Some (key 2)
  /\ key 1 <> key 2.
Proof. repeat split; vm_compute; try reflexivity. discriminate. Qed.

(** C2, amended: the address of a store is not derived from the string;
    it is the public key of the keypair generated for that request,
    whatever the string is. *)
Theorem store_address_is_generated_key (k : PublicKey) (body : JsonValue)
    (w : World) (r : StoreResult.t) :
  data (fst (apiStore k body w)) = Some r ->
  StoreResult.recordAddress r = k.
Proof. intros H. apply apiStore_occupies in H. apply H. Qed.

Lemma store_address_is_generated_key_witness :
  exists r, data (fst firstStore) = Some r /\ StoreResult.recordAddress r = key 1.
Proof.
  eexists. split; [vm_compute; reflexivity|].
  apply (store_address_is_generated_key (key 1) (JString helloBase64) freshWorld).
  vm_compute. reflexivity.
Defined.

(** ** Duplicates *)

(** C3: a string already on chain is stored again. On a fresh server the
    Base64 text of "Hello" is submitted twice; both requests are answered
    with success and code 0, at two different addresses, and the cluster
    then holds the same string in two records. No duplicate-submission
    error is raised for the second. *)
Theorem duplicate_store_is_accepted :
  (success (fst firstStore) = true /\ code (fst firstStore) = 0)
  /\ (success (fst secondStore) = true /\ code (fst secondStore) = 0)
  /\ StoreResult.originalString <$> data (fst firstStore) = Some (lit "Hello")
  /\ StoreResult.originalString <$> data (fst secondStore) = Some (lit "Hello")
  /\ StoreResult.recordAddress <$> data (fst firstStore) = Some (key 1)
  /\ StoreResult.recordAddress <$> data (fst secondStore) = Some (key 2)
  /\ map fst (Chain.accounts (chain (snd secondStore))) = [key 1; key 2]
  /\ Chain.lookup (key 1) (chain (snd secondStore))
     = Some (Chain.encode (Chain.newRecord (lit "Hello") (key 7) (chain freshWorld)))
  /\ Chain.lookup (key 2) (chain (snd secondStore))
     = Some (Chain.encode (Chain.newRecord (lit "Hello") (key 7) (chain freshWorld))).
Proof.
  split; [split; vm_compute; reflexivity|].
  split; [split; vm_compute; reflexivity|].
  split; [vm_compute; reflexivity|]. split; [vm_compute; reflexivity|].
  split; [vm_compute; reflexivity|]. split; [vm_compute; reflexivity|].
  split; [vm_compute; reflexivity|]. split; vm_compute; reflexivity.
Qed.

(** ** The cache *)

(** No request handled by POST /api/store changes [uploadedSignatures]. *)
Lemma apiStore_cache (k : PublicKey) (body : JsonValue) (w : World) :
  uploadedSignatures (snd (apiStore k body w)) = uploadedSignatures w.
Proof. apply apiStore_effect. Qed.

(** C4: the set documented as the signatures already on chain is never
    added to. After the successful store of "Hello" on a fresh server the
    cache holds no fingerprint at all. *)
Theorem store_leaves_cache_empty :
  success (fst firstStore) = true
  /\ forall fingerprint : jsstring,
       fingerprint ∉ uploadedSignatures (snd firstStore).
Proof.
  split; [vm_compute; reflexivity|].
  intros f. unfold firstStore. rewrite apiStore_cache. cbn.
  apply not_elem_of_empty.
Qed.

(** ** Length checks of POST /api/store *)





(** ** The scan *)

Lemma scan_found (signatureHex : jsstring)
    (accounts : list (PublicKey * Buffer)) (found : QueryResult.t) :
  scanAccounts signatureHex accounts = inr (Some found) ->
  QueryResult.exists_ found = true
  /\ QueryResult.signature found = Some signatureHex.
Proof.
  induction accounts as [|[pubkey accountData] rest IH]; [discriminate|].
  cbn [scanAccounts]. cbv zeta.
  destruct (_ <? 8 + 4 + 16 + 8 + 32 + 8); [exact IH|].
  destruct (JS.readUInt32LE accountData 8) as [strLen|]; [|discriminate].
  destruct (_ || _); [exact IH|].
  destruct (bool_decide _); [|exact IH].
  destruct (JS.readBigInt64LE _ _); [|discriminate].
  destruct (JS.readBigUInt64LE _ _); [|discriminate].
  intros [= <-]. split; reflexivity.
Qed.

Lemma scan_records (signatureHex : jsstring)
    (records : list (PublicKey * Idl.StringRecord)) :
  Forall (fun kr => wellFormed kr.2) records ->
  Exists (fun kr => toHex (Idl.signature kr.2) = signatureHex) records ->
  exists found,
    scanAccounts signatureHex (encodeAll records) = inr (Some found)
    /\ QueryResult.exists_ found = true.
Proof.
  induction records as [|[k r] rest IH]; intros Hwf Hex; [inversion Hex|].
  apply Forall_cons in Hwf as [Hr Hrest].
  cbn [encodeAll map fst snd]. rewrite scan_encoded by exact Hr.
  case_bool_decide as Hsig.
  - eexists. split; reflexivity.
  - apply Exists_cons in Hex as [Hhead|Htail]; [contradiction|].
    apply IH; assumption.
Qed.

(** ** GET /api/query/:data *)

Lemma apiQuery_decoded (data s : jsstring) (w : World) :
  data <> [] ->
  decodeURIComponent data = Some s ->
  apiQuery data w
  = if bool_decide (toHex (md5Hash s) ∈ uploadedSignatures w) then
      match scanAccounts (toHex (md5Hash s)) (Chain.accounts (chain w)) with
      | inl e => (queryFailure e, logRpc RpcGetProgramAccounts w)
      | inr (Some found) =>
          (ok "查询成功，记录已上链" found, logRpc RpcGetProgramAccounts w)
      | inr None =>
          (ok "未找到上链记录（缓存过期）" (notFound s (toHex (md5Hash s))),
           logRpc RpcGetProgramAccounts w)
      end
    else (ok "未找到上链记录" (notFound s (toHex (md5Hash s))), w).
Proof.
  intros Hne Hdec. unfold apiQuery.
  rewrite bool_decide_eq_false_2 by exact Hne. rewrite Hdec.
  unfold queryBody. cbv zeta.
  destruct (bool_decide _); cbn [negb]; [|reflexivity].
  unfold mbind, handler_bind, getProgramAccounts.
  destruct (scanAccounts _ _) as [e|[found|]]; reflexivity.
Qed.

Lemma apiQuery_data (param : jsstring) (w : World) (q : QueryResult.t) :
  data (fst (apiQuery param w)) = Some q ->
  exists s,
    decodeURIComponent param = Some s
    /\ QueryResult.signature q = Some (toHex (md5Hash s)).
Proof.
  destruct (decide (param = [])) as [->|Hne]; [discriminate|].
  destruct (decodeURIComponent param) as [s|] eqn:Hdec.
  - rewrite (apiQuery_decoded param s w Hne Hdec).
    exists s. split; [reflexivity|].
    destruct (bool_decide _).
    + destruct (scanAccounts _ _) as [e|[found|]] eqn:Hscan; cbn in H.
      * discriminate.
      * injection H as <-. apply scan_found in Hscan. apply Hscan.
      * injection H as <-. reflexivity.
    + injection H as <-. reflexivity.
  - unfold apiQuery. rewrite bool_decide_eq_false_2 by exact Hne.
    rewrite Hdec. discriminate.
Qed.




(** C9: the scan compares fingerprints and nothing else. When two
    distinct strings have the same fingerprint and the record of one is
    the first account scanned, the query for the other reports
    exists = true and returns that record, with the stored string of the
    other. *)
Theorem query_matches_on_fingerprint_alone (data queried stored : jsstring)
    (pubkey : PublicKey) (r : Idl.StringRecord)
    (rest : list (PublicKey * Buffer)) (w : World) :
  data <> [] ->
  decodeURIComponent data = Some queried ->
  queried <> stored ->
  md5Hash queried = md5Hash stored ->
  wellFormed r ->
  Idl.originalString r = utf8Encode stored ->
  Idl.signature r = md5Hash stored ->
  toHex (md5Hash queried) ∈ uploadedSignatures w ->
  Chain.accounts (chain w) = (pubkey, Chain.encode r) :: rest ->
  fst (apiQuery data w)
    = ok "查询成功，记录已上链" (foundAt pubkey (toHex (md5Hash queried)) r)
  /\ QueryResult.exists_ (foundAt pubkey (toHex (md5Hash queried)) r) = true
  /\ QueryResult.originalString (foundAt pubkey (toHex (md5Hash queried)) r)
     = Some (utf8Decode (utf8Encode stored)).
Proof.
  intros Hne Hdec _ Hsame Hwf Hstr Hsig Hcache Hacc.
  rewrite (apiQuery_decoded data queried w Hne Hdec).
  rewrite bool_decide_eq_true_2 by exact Hcache.
  rewrite Hacc, scan_encoded by exact Hwf.
  rewrite bool_decide_eq_true_2 by (rewrite Hsig, Hsame; reflexivity).
  cbn [fst]. repeat split. cbn. rewrite Hstr. reflexivity.
Qed.

Lemma query_matches_on_fingerprint_alone_witness :
  fst (apiQuery (lit "gb") collisionWorld)
    = ok "查询成功，记录已上链"
        (foundAt (key 1) (toHex (md5Hash (lit "gb"))) (recordOf (lit "ha")))
  /\ QueryResult.originalString
       (foundAt (key 1) (toHex (md5Hash (lit "gb"))) (recordOf (lit "ha")))
     = Some (lit "ha").
Proof.
  destruct (query_matches_on_fingerprint_alone (lit "gb") (lit "gb") (lit "ha")
              (key 1) (recordOf (lit "ha")) [] collisionWorld)
    as (Hresp & _ & Hstr).
  - vm_compute. discriminate.
  - vm_compute. reflexivity.
  - vm_compute. discriminate.
  - vm_compute. reflexivity.
  - repeat split; vm_compute; try reflexivity. lia.
  - reflexivity.
  - reflexivity.
  - unfold collisionWorld, worldWith. cbn [uploadedSignatures].
    apply elem_of_singleton_2. vm_compute. reflexivity.
  - reflexivity.
  - split; [exact Hresp|]. rewrite Hstr. vm_compute. reflexivity.
Defined.

(** ** Base64 on the way in *)

(** The decoder reads a code unit above U+00FF through its low byte:
    U+013D ends the input like [=], U+0141 counts as [A]. *)
Lemma base64_reads_low_bytes :
  decodeBase64Text (lit "SGVs" ++ [0x13d%N] ++ lit "bG8=") = lit "Hel"
  /\ decodeBase64Text ([0x141%N] ++ lit "AAA") = [0%N; 0%N; 0%N]
  /\ decodeBase64Text ([0x13d%N] ++ lit "SGVsbG8=") = [].
Proof. split; [|split]; vm_compute; reflexivity. Qed.

(** C10: a store treats the submitted text as Base64. When it succeeds,
    the [originalString] it answers with, the argument of the
    [storeString] instruction it sent and the string of the record then
    found at the address are the decoded text; the query on the same
    text fingerprints it after [decodeURIComponent] only. *)
Theorem store_decodes_base64_query_does_not (k : PublicKey) (s : jsstring)
    (w : World) :
  (forall r : StoreResult.t,
     data (fst (apiStore k (JString s) w)) = Some r ->
     StoreResult.originalString r = decodeBase64Text s
     /\ In (RpcStoreString (decodeBase64Text s) k)
           (rpcLog (snd (apiStore k (JString s) w)))
     /\ exists stored,
          Chain.lookup k (chain (snd (apiStore k (JString s) w)))
            = Some (Chain.encode stored)
          /\ Idl.originalString stored = utf8Encode (decodeBase64Text s))
  /\ (forall q : QueryResult.t,
        data (fst (apiQuery s w)) = Some q ->
        exists t,
          decodeURIComponent s = Some t
          /\ QueryResult.signature q = Some (toHex (md5Hash t))).
Proof.
  split; [|intros q Hquery; eapply apiQuery_data, Hquery].
  intros r Hstore.
  apply apiStore_data in Hstore as (s' & [= <-] & _ & Hb).
  apply storeBody_inv in Hb as (_ & Hfree & Hacc & _ & _ & Hstr & Hlog).
  split; [exact Hstr|]. split; [exact Hlog|].
  eexists. split; [eapply lookup_snoc_new; [exact Hfree|exact Hacc]|].
  reflexivity.
Qed.

Lemma store_decodes_base64_query_does_not_witness :
  decodeBase64Text helloBase64 = lit "Hello"
  /\ exists r q,
       data (fst (apiStore (key 1) (JString helloBase64) freshWorld)) = Some r
       /\ data (fst (apiQuery helloBase64 freshWorld)) = Some q
       /\ StoreResult.originalString r = decodeBase64Text helloBase64
       /\ exists t,
            decodeURIComponent helloBase64 = Some t
            /\ QueryResult.signature q = Some (toHex (md5Hash t)).
Proof.
  split; [vm_compute; reflexivity|].
  destruct (data (fst (apiStore (key 1) (JString helloBase64) freshWorld)))
    as [r|] eqn:Hr; [|vm_compute in Hr; discriminate].
  destruct (data (fst (apiQuery helloBase64 freshWorld)))
    as [q|] eqn:Hq; [|vm_compute in Hq; discriminate].
  exists r, q. split; [reflexivity|]. split; [reflexivity|].
  destruct (store_decodes_base64_query_does_not (key 1) helloBase64 freshWorld)
    as (Hstore & Hquery).
  destruct (Hstore r Hr) as (Hstr & _).
  split; [exact Hstr|exact (Hquery q Hq)].
Defined.

(** ** The decoders *)

(** The checks of GET /api/record/:address on the account data: the
    length bound on the string is 1000. *)
Lemma decodeRecord_refuses (recordAddress : PublicKey) (accountData : Buffer)
    (w : World) (strLen : Z) :
  JS.readUInt32LE accountData 8 = Some strLen ->
  Z.of_nat (length accountData) < 8 + 4 + 16 + 8 + 32 + 8
  \/ 1000 < strLen
  \/ Z.of_nat (length accountData) < 8 + 4 + strLen + 16 + 8 + 32 + 8 ->
  exists detail, decodeRecord recordAddress accountData w = (inr (inl detail), w).
Proof.
  intros Hread Hbad. unfold decodeRecord. cbv zeta.
  destruct (_ <? 8 + 4 + 16 + 8 + 32 + 8) eqn:E1; [eexists; reflexivity|].
  apply Z.ltb_ge in E1.
  rewrite Hread. unfold mbind, handler_bind, orRangeError, mret, handler_ret.
  destruct (_ || _) eqn:E2; [eexists; reflexivity|].
  apply orb_false_iff in E2 as [E2 E3].
  apply Z.ltb_ge in E2, E3. lia.
Qed.

(** C7: neither decoder makes the three checks. GET /api/record bounds
    the string length by 1000, not 200: an account whose string has 300
    bytes is answered as a record. The scan of GET /api/query checks the
    string against the total length only: on a 76-byte account holding a
    48-byte string and a matching fingerprint, the reads run off the end
    and the request fails with the RangeError. *)
Theorem decoders_accept_what_the_codec_refuses :
  (length (Idl.originalString longRecord) = 300%nat
   /\ exists found,
        data (fst (apiRecord (AddressOf (key 1)) longWorld)) = Some found
        /\ QueryResult.exists_ found = true
        /\ length <$> QueryResult.originalString found = Some 300%nat)
  /\ (length truncatedData = 76%nat
      /\ JS.readUInt32LE truncatedData 8 = Some 48
      /\ fst (apiQuery (lit "Hello") truncatedWorld) = queryFailure RangeError).
Proof.
  split.
  - split; [vm_compute; reflexivity|].
    eexists. split; [vm_compute; reflexivity|].
    split; vm_compute; reflexivity.
  - split; [vm_compute; reflexivity|].
    split; vm_compute; reflexivity.
Qed.

(* ===================================================================== *)
(** * Further properties of the server code *)
(* ===================================================================== *)

(** ** md5Hash: shape of the result and of the accumulator *)

Lemma length_bufWrite (buf : Buffer) (i v : Z) :
  length (JS.bufWrite buf i v) = length buf.
Proof.
  unfold JS.bufWrite. destruct (i <? 0); [reflexivity|apply length_insert].
Qed.

Lemma length_md5Step (st : Z * Buffer) (x : byte) :
  length (snd (md5Step st x)) = length (snd st).
Proof.
  destruct st as [hash result]. unfold md5Step. cbn [snd].
  rewrite !length_bufWrite. reflexivity.
Qed.

Lemma length_md5Loop (bytes : Buffer) : length (snd (md5Loop bytes)) = 16%nat.
Proof.
  unfold md5Loop.
  assert (H : forall st,
             length (snd (fold_left md5Step bytes st)) = length (snd st)).
  { induction bytes as [|x bytes IH]; intros st; [reflexivity|].
    cbn [fold_left]. rewrite IH. apply length_md5Step. }
  rewrite H. reflexivity.
Qed.

(** Whatever the string, [md5Hash] returns a buffer of exactly 16 bytes. *)
Theorem md5Hash_length (data : jsstring) : length (md5Hash data) = 16%nat.
Proof. unfold md5Hash. apply length_md5Loop. Qed.

Lemma roundMagnitude_nonneg (m : Z) : 0 <= m -> 0 <= JS.roundMagnitude m.
Proof.
  intros Hm. unfold JS.roundMagnitude.
  destruct (m <? 2 ^ 53); [exact Hm|]. cbv zeta.
  apply Z.shiftl_nonneg.
  assert (Hq : 0 <= Z.shiftr m (Z.log2 m - 52)) by (apply Z.shiftr_nonneg; exact Hm).
  repeat match goal with |- context [if ?c then _ else _] => destruct c end; lia.
Qed.

Lemma toNumber_nonneg (z : Z) : 0 <= z -> 0 <= JS.toNumber z.
Proof.
  intros Hz. unfold JS.toNumber.
  destruct (z <? 0) eqn:E; [apply Z.ltb_lt in E; lia|].
  apply roundMagnitude_nonneg, Hz.
Qed.

(** After every byte the accumulator is a non-negative Number, so the
    index [hash % 16] lies in 0..15 and each of the four writes of the
    iteration lands inside the buffer. *)
Theorem md5Step_index_in_range (st : Z * Buffer) (x : byte) :
  0 <= fst (md5Step st x)
  /\ 0 <= JS.rem (fst (md5Step st x)) 16 < 16.
Proof.
  assert (H : 0 <= fst (md5Step st x)).
  { destruct st as [hash result]. unfold md5Step. cbn [fst].
    apply toNumber_nonneg. unfold JS.bigMulMask64.
    apply Z.land_nonneg. right. lia. }
  split; [exact H|]. unfold JS.rem. apply Z.rem_bound_pos; lia.
Qed.

(** Only the low 32 bits of the accumulator survive [hash ^= byte]: two
    accumulators that agree modulo 2^32 give the same iteration. *)
Theorem md5Step_keeps_32_bits (hash hash' : Z) (result : Buffer) (x : byte) :
  hash mod 2 ^ 32 = hash' mod 2 ^ 32 ->
  md5Step (hash, result) x = md5Step (hash', result) x.
Proof.
  intros H. unfold md5Step, JS.xor, JS.toInt32. rewrite H. reflexivity.
Qed.

Lemma md5Step_keeps_32_bits_witness :
  md5Step (hash0, initResult) "a"%byte
  = md5Step (hash0 mod 2 ^ 32, initResult) "a"%byte.
Proof.
  apply (md5Step_keeps_32_bits hash0 (hash0 mod 2 ^ 32) initResult "a"%byte).
  vm_compute. reflexivity.
Defined.

Lemma toNumber_large_multiple_of_16 (z : Z) :
  2 ^ 56 <= z -> JS.rem (JS.toNumber z) 16 = 0.
Proof.
  intros Hz. unfold JS.rem, JS.toNumber, JS.roundMagnitude.
  destruct (z <? 0) eqn:E0; [apply Z.ltb_lt in E0; lia|].
  destruct (z <? 2 ^ 53) eqn:E1; [apply Z.ltb_lt in E1; lia|]. cbv zeta.
  assert (Hlog : 56 <= Z.log2 z).
  { change 56 with (Z.log2 (2 ^ 56)). apply Z.log2_le_mono, Hz. }
  set (q' := if _ <? _ then _ else _). clearbody q'.
  rewrite Z.shiftl_mul_pow2 by lia.
  replace (Z.log2 z - 52) with (4 + (Z.log2 z - 56)) by lia.
  rewrite Z.pow_add_r by lia. change (2 ^ 4) with 16.
  apply Z.rem_divide; [lia|].
  exists (q' * 2 ^ (Z.log2 z - 56)). ring.
Qed.

Lemma bufWrite_other (buf : Buffer) (i v : Z) (j : nat) :
  0 <= i -> Z.to_nat i <> j -> JS.bufWrite buf i v !! j = buf !! j.
Proof.
  intros Hi Hne. unfold JS.bufWrite.
  destruct (i <? 0); [reflexivity|]. apply list_lookup_insert_ne, Hne.
Qed.

(** Once the masked product reaches 2^56 its double is a multiple of 16:
    the index is 0 and the iteration changes nothing outside the slots
    0, 1, 3 and 7 of the result. *)
Theorem md5Step_large_touches_four_slots (hash : Z) (result : Buffer)
    (x : byte) (j : nat) :
  2 ^ 56 <= JS.bigMulMask64 (JS.xor hash (JS.byteZ x)) FNV_PRIME ->
  j <> 0%nat -> j <> 1%nat -> j <> 3%nat -> j <> 7%nat ->
  snd (md5Step (hash, result) x) !! j = result !! j.
Proof.
  intros Hbig H0 H1 H3 H7. unfold md5Step. cbn [snd].
  rewrite (toNumber_large_multiple_of_16 _ Hbig).
  change (JS.rem (0 + 1) 16) with 1. change (JS.rem (0 + 3) 16) with 3.
  change (JS.rem (0 + 7) 16) with 7.
  rewrite !bufWrite_other by lia. reflexivity.
Qed.

Lemma md5Step_large_touches_four_slots_witness :
  snd (md5Step (hash0, initResult) "a"%byte) !! 12%nat = initResult !! 12%nat.
Proof.
  apply (md5Step_large_touches_four_slots hash0 initResult "a"%byte 12);
    [vm_compute; discriminate|lia|lia|lia|lia].
Defined.

(** ** Reads that fit *)

Lemma leValue_nonneg (bs : Buffer) : 0 <= JS.leValue bs.
Proof.
  induction bs as [|x bs IH]; cbn [JS.leValue]; [lia|].
  pose proof (byteZ_range x). lia.
Qed.

Lemma readLE_fits (width : Z) (buf : Buffer) (off : Z) :
  0 <= off -> off + width <= Z.of_nat (length buf) ->
  JS.readLE width buf off = Some (JS.leValue (JS.slice buf off (off + width))).
Proof.
  intros H0 H1. unfold JS.readLE.
  destruct (off <? 0) eqn:E0; [apply Z.ltb_lt in E0; lia|].
  destruct (_ <? off + width) eqn:E1; [apply Z.ltb_lt in E1; lia|].
  reflexivity.
Qed.

Lemma readUInt32LE_strLenAt (accountData : Buffer) :
  8 + 4 <= Z.of_nat (length accountData) ->
  JS.readUInt32LE accountData 8 = Some (strLenAt accountData).
Proof. intros H. unfold JS.readUInt32LE. apply readLE_fits; lia. Qed.

(** ** The scan: first match, and no failure before it *)

Lemma scan_skips (signatureHex : jsstring) (pubkey : PublicKey)
    (accountData : Buffer) (rest : list (PublicKey * Buffer)) :
  candidate signatureHex accountData = false ->
  scanAccounts signatureHex ((pubkey, accountData) :: rest)
  = scanAccounts signatureHex rest.
Proof.
  unfold candidate. cbv zeta. intros Hc. cbn [scanAccounts]. cbv zeta.
  destruct (_ <? 8 + 4 + 16 + 8 + 32 + 8) eqn:E1; [reflexivity|].
  apply Z.ltb_ge in E1.
  rewrite readUInt32LE_strLenAt by lia.
  destruct (200 <? _) eqn:E2; [reflexivity|]. apply Z.ltb_ge in E2.
  destruct (_ <? strLenAt accountData + (8 + 4)) eqn:E3; [reflexivity|].
  apply Z.ltb_ge in E3. cbn [orb].
  rewrite (proj2 (Z.leb_le _ _) E1), (proj2 (Z.leb_le _ _) E2),
    (proj2 (Z.leb_le _ _) E3) in Hc.
  cbn [andb] in Hc. rewrite Hc. reflexivity.
Qed.

(** The scan passes over every account that fails a check or carries
    another fingerprint, without ever failing on it: the answer is the
    one of the first candidate. *)
Theorem scan_starts_at_first_candidate (signatureHex : jsstring)
    (before rest : list (PublicKey * Buffer)) :
  Forall (fun a => candidate signatureHex a.2 = false) before ->
  scanAccounts signatureHex (before ++ rest) = scanAccounts signatureHex rest.
Proof.
  induction 1 as [|[pubkey accountData] before Hhead _ IH]; [reflexivity|].
  cbn [app]. rewrite scan_skips by exact Hhead. exact IH.
Qed.

Lemma scan_starts_at_first_candidate_witness :
  scanAccounts (toHex (md5Hash (lit "Hello")))
    ([(key 2, replicate 40 "000"%byte); (key 3, Chain.encode longRecord)]
     ++ [(key 1, Chain.encode (recordOf (lit "Hello")))])
  = scanAccounts (toHex (md5Hash (lit "Hello")))
      [(key 1, Chain.encode (recordOf (lit "Hello")))].
Proof.
  apply (scan_starts_at_first_candidate (toHex (md5Hash (lit "Hello")))
           [(key 2, replicate 40 "000"%byte); (key 3, Chain.encode longRecord)]).
  constructor; [vm_compute; reflexivity|].
  constructor; [vm_compute; reflexivity|constructor].
Defined.

(** Among well-formed records the scan answers with the first one whose
    fingerprint is the queried one, and with its address. *)
Theorem scan_returns_first_match (signatureHex : jsstring)
    (before after : list (PublicKey * Idl.StringRecord))
    (pubkey : PublicKey) (r : Idl.StringRecord) :
  Forall (fun kr => wellFormed kr.2
                    /\ toHex (Idl.signature kr.2) <> signatureHex) before ->
  wellFormed r ->
  toHex (Idl.signature r) = signatureHex ->
  scanAccounts signatureHex (encodeAll (before ++ (pubkey, r) :: after))
  = inr (Some (foundAt pubkey signatureHex r)).
Proof.
  intros Hbefore Hwf Hsig.
  induction Hbefore as [|[k r0] before [Hwf0 Hne] _ IH].
  - cbn [app encodeAll map fst snd]. rewrite scan_encoded by exact Hwf.
    rewrite bool_decide_eq_true_2 by exact Hsig. reflexivity.
  - cbn [app encodeAll map fst snd]. rewrite scan_encoded by exact Hwf0.
    rewrite bool_decide_eq_false_2 by exact Hne. exact IH.
Qed.

Lemma scan_returns_first_match_witness :
  scanAccounts (toHex (md5Hash (lit "ha")))
    (encodeAll ([(key 2, recordOf (lit "Hello"))]
                ++ (key 3, recordOf (lit "gb")) :: [(key 4, recordOf (lit "ha"))]))
  = inr (Some (foundAt (key 3) (toHex (md5Hash (lit "ha"))) (recordOf (lit "gb")))).
Proof.
  apply (scan_returns_first_match (toHex (md5Hash (lit "ha")))
           [(key 2, recordOf (lit "Hello"))] [(key 4, recordOf (lit "ha"))]
           (key 3) (recordOf (lit "gb"))).
  - constructor; [|constructor].
    split; [split; [vm_compute; lia|split; vm_compute; reflexivity]|].
    vm_compute. discriminate.
  - split; [vm_compute; lia|split; vm_compute; reflexivity].
  - vm_compute. reflexivity.
Defined.

(** ** GET /api/record/:address *)

Lemma recordBody_absent (k : PublicKey) (w : World) :
  Chain.lookup k (chain w) = None ->
  recordBody k w
  = (inr (ok "未找到上链记录"
            {| QueryResult.exists_ := false;
               QueryResult.recordAddress := Some k;
               QueryResult.signature := None;
               QueryResult.timestamp := None;
               QueryResult.owner := None;
               QueryResult.costLamports := None;
               QueryResult.originalString := None |}),
     logRpc (RpcGetAccountInfo k) w).
Proof.
  intros H. unfold recordBody, mbind, handler_bind, getAccountInfo.
  rewrite H. reflexivity.
Qed.

Lemma recordBody_present (k : PublicKey) (accountData : Buffer) (w : World) :
  Chain.lookup k (chain w) = Some accountData ->
  recordBody k w
  = match decodeRecord k accountData (logRpc (RpcGetAccountInfo k) w) with
    | (inl e, w') => (inl e, w')
    | (inr (inl detail), w') =>
        (inr (badRequest 400 (lit "账户数据格式错误") detail), w')
    | (inr (inr found), w') => (inr (ok "查询成功，记录已上链" found), w')
    end.
Proof.
  intros H. unfold recordBody, mbind, handler_bind, getAccountInfo.
  rewrite H.
  destruct (decodeRecord _ _ _) as [[e|[detail|found]] w']; reflexivity.
Qed.

(** The two checks of the handler, as one condition on the account. *)
Lemma decodeRecord_checked (k : PublicKey) (accountData : Buffer) (w : World) :
  let len := Z.of_nat (length accountData) in
  let refused := (len <? 8 + 4 + 16 + 8 + 32 + 8)
                 || (1000 <? strLenAt accountData)
                 || (len <? 8 + 4 + strLenAt accountData + 16 + 8 + 32 + 8) in
  exists answer,
    decodeRecord k accountData w = (inr answer, w)
    /\ (refused = true -> exists detail, answer = inl detail)
    /\ (refused = false ->
        exists found, answer = inr found
                      /\ QueryResult.exists_ found = true
                      /\ QueryResult.recordAddress found = Some k).
Proof.
  cbv zeta. unfold decodeRecord. cbv zeta.
  destruct (_ <? 8 + 4 + 16 + 8 + 32 + 8) eqn:E1.
  { eexists. split; [reflexivity|]. cbn [orb].
    split; [eauto|discriminate]. }
  apply Z.ltb_ge in E1. cbn [orb].
  rewrite readUInt32LE_strLenAt by lia.
  unfold mbind, handler_bind, orRangeError, mret, handler_ret.
  set (n := strLenAt accountData).
  assert (Hn : 0 <= n) by apply leValue_nonneg.
  destruct (1000 <? n) eqn:E2.
  { eexists. split; [reflexivity|]. cbn [orb].
    split; [eauto|discriminate]. }
  cbn [orb].
  replace (_ - 16 - 8 - 32 - 8 <? n + (8 + 4))
    with (Z.of_nat (length accountData) <? 8 + 4 + n + 16 + 8 + 32 + 8)
    by (apply eq_true_iff_eq; rewrite !Z.ltb_lt; lia).
  destruct (_ <? 8 + 4 + n + 16 + 8 + 32 + 8) eqn:E3.
  { eexists. split; [reflexivity|]. split; [eauto|discriminate]. }
  apply Z.ltb_ge in E3.
  unfold JS.readBigInt64LE, JS.readBigUInt64LE.
  rewrite !readLE_fits by lia. cbn [fmap option_fmap option_map].
  eexists. split; [reflexivity|]. split; [discriminate|].
  intros _. eexists. split; [reflexivity|]. split; reflexivity.
Qed.

(** GET /api/record never fails: whatever bytes the account holds, no
    read leaves the buffer, and the answer is a 200 or a 400, never the
    500 of the [catch] block. *)
Theorem apiRecord_never_fails (address : AddressParam) (w : World) :
  status (fst (apiRecord address w)) = 200
  \/ status (fst (apiRecord address w)) = 400.
Proof.
  destruct address as [| |k]; [right; reflexivity|right; reflexivity|].
  unfold apiRecord.
  destruct (Chain.lookup k (chain w)) as [accountData|] eqn:Hl.
  - rewrite (recordBody_present k accountData w Hl).
    destruct (decodeRecord_checked k accountData (logRpc (RpcGetAccountInfo k) w))
      as ([detail|found] & -> & _); [right|left]; reflexivity.
  - rewrite (recordBody_absent k w Hl). left. reflexivity.
Qed.

(** On an account that exists, GET /api/record answers 400 exactly when
    the data is shorter than 76 bytes, or announces a string of more than
    1000 bytes, or is shorter than the record it announces; otherwise it
    answers 200 with exists = true. *)
Theorem apiRecord_refusal (k : PublicKey) (accountData : Buffer) (w : World) :
  Chain.lookup k (chain w) = Some accountData ->
  let len := Z.of_nat (length accountData) in
  (status (fst (apiRecord (AddressOf k) w)) = 400
   <-> len < 76 \/ 1000 < strLenAt accountData
       \/ len < 76 + strLenAt accountData)
  /\ (status (fst (apiRecord (AddressOf k) w)) = 200
      <-> QueryResult.exists_ <$> data (fst (apiRecord (AddressOf k) w))
          = Some true).
Proof.
  intros Hl. cbv zeta. unfold apiRecord.
  rewrite (recordBody_present k accountData w Hl).
  destruct (decodeRecord_checked k accountData (logRpc (RpcGetAccountInfo k) w))
    as (answer & -> & Hbad & Hgood).
  cbv zeta in Hbad, Hgood.
  destruct (_ || _) eqn:E.
  - destruct (Hbad eq_refl) as [detail ->]. cbn.
    apply orb_true_iff in E as [E|E]; [apply orb_true_iff in E as [E|E]|];
      apply Z.ltb_lt in E; split; split; intros; try discriminate; try lia;
      reflexivity.
  - destruct (Hgood eq_refl) as (found & -> & Hex & _). cbn. rewrite Hex.
    apply orb_false_iff in E as [E E3]. apply orb_false_iff in E as [E1 E2].
    apply Z.ltb_ge in E1, E2, E3.
    split; split; intros; try discriminate; try lia; reflexivity.
Qed.

Lemma apiRecord_refusal_witness :
  status (fst (apiRecord (AddressOf (key 1)) longWorld)) = 200
  <-> QueryResult.exists_ <$> data (fst (apiRecord (AddressOf (key 1)) longWorld))
      = Some true.
Proof.
  apply (apiRecord_refusal (key 1) (Chain.encode longRecord) longWorld).
  vm_compute. reflexivity.
Defined.

(** ** Reading a record back *)

Lemma toNumber_safe (z : Z) : - 2 ^ 53 < z < 2 ^ 53 -> JS.toNumber z = z.
Proof.
  intros Hz. unfold JS.toNumber, JS.roundMagnitude.
  destruct (z <? 0) eqn:E0.
  - destruct (- z <? 2 ^ 53) eqn:E1; [lia|apply Z.ltb_ge in E1; lia].
  - destruct (z <? 2 ^ 53) eqn:E1; [lia|apply Z.ltb_ge in E1; lia].
Qed.

Lemma readTimestamp_safe (r : Idl.StringRecord) :
  - 2 ^ 53 < Idl.timestamp r < 2 ^ 53 -> readTimestamp r = Idl.timestamp r.
Proof.
  intros Hts. unfold readTimestamp. cbv zeta.
  destruct (Z.neg_nonneg_cases (Idl.timestamp r)) as [Hneg|Hpos].
  - replace (Idl.timestamp r mod 2 ^ 64) with (Idl.timestamp r + 2 ^ 64)
      by (apply Z.mod_unique with (q := -1); lia).
    destruct (2 ^ 63 <=? _) eqn:E; [|apply Z.leb_gt in E; lia].
    replace (Idl.timestamp r + 2 ^ 64 - 2 ^ 64) with (Idl.timestamp r) by lia.
    apply toNumber_safe. lia.
  - rewrite Z.mod_small by lia.
    destruct (2 ^ 63 <=? _) eqn:E; [apply Z.leb_le in E; lia|].
    apply toNumber_safe. lia.
Qed.

Lemma readCost_safe (r : Idl.StringRecord) :
  0 <= Idl.costLamports r < 2 ^ 53 -> readCost r = Idl.costLamports r.
Proof.
  intros Hc. unfold readCost. rewrite Z.mod_small by lia.
  apply toNumber_safe. lia.
Qed.

Lemma decodeRecord_encoded (k : PublicKey) (r : Idl.StringRecord) (w : World) :
  (length (Idl.originalString r) <= 1000)%nat ->
  length (Idl.signature r) = 16%nat ->
  length (Idl.owner r) = 32%nat ->
  decodeRecord k (Chain.encode r) w
  = (inr (inr (foundAt k (toHex (Idl.signature r)) r)), w).
Proof.
  intros Hlen Hsig Howner.
  unfold decodeRecord. cbv zeta.
  rewrite (length_encode r Hsig Howner), (encode_strLen r Hsig Howner).
  set (n := Z.of_nat (length (Idl.originalString r))).
  assert (Hn : 0 <= n <= 1000) by (subst n; lia).
  rewrite (Z.mod_small n) by lia.
  destruct (_ <? 8 + 4 + 16 + 8 + 32 + 8) eqn:E1; [apply Z.ltb_lt in E1; lia|].
  unfold mbind, handler_bind, orRangeError, mret, handler_ret.
  destruct (1000 <? n) eqn:E2; [apply Z.ltb_lt in E2; lia|].
  destruct (_ <? n + (8 + 4)) eqn:E3; [apply Z.ltb_lt in E3; lia|].
  cbn [orb]. subst n.
  unfold JS.readBigInt64LE, JS.readBigUInt64LE.
  rewrite (encode_timestamp r Hsig Howner). cbn [fmap option_fmap option_map].
  rewrite (encode_cost r Hsig Howner), (encode_owner r Hsig Howner).
  rewrite (encode_string r Hsig Howner), (encode_signature r Hsig Howner).
  rewrite (newPublicKey_owner r Howner).
  reflexivity.
Qed.

(** Round trip through the layout: when the account at an address holds
    the encoding of a record (string of at most 1000 bytes, timestamp and
    cost within the safe integers), GET /api/record answers with exactly
    the fields of that record: the hex of its fingerprint, its timestamp,
    owner and cost, and its string decoded from UTF-8. *)
Theorem apiRecord_round_trip (k : PublicKey) (r : Idl.StringRecord) (w : World) :
  Chain.lookup k (chain w) = Some (Chain.encode r) ->
  (length (Idl.originalString r) <= 1000)%nat ->
  length (Idl.signature r) = 16%nat ->
  length (Idl.owner r) = 32%nat ->
  - 2 ^ 53 < Idl.timestamp r < 2 ^ 53 ->
  0 <= Idl.costLamports r < 2 ^ 53 ->
  fst (apiRecord (AddressOf k) w)
  = ok "查询成功，记录已上链"
      {| QueryResult.exists_ := true;
         QueryResult.recordAddress := Some k;
         QueryResult.signature := Some (toHex (Idl.signature r));
         QueryResult.timestamp := Some (Idl.timestamp r);
         QueryResult.owner := Some (Idl.owner r);
         QueryResult.costLamports := Some (Idl.costLamports r);
         QueryResult.originalString := Some (utf8Decode (Idl.originalString r)) |}.
Proof.
  intros Hl Hlen Hsig Howner Hts Hcost. unfold apiRecord.
  rewrite (recordBody_present k _ w Hl).
  rewrite decodeRecord_encoded by assumption.
  cbn [fst]. unfold foundAt.
  rewrite readTimestamp_safe, readCost_safe by assumption. reflexivity.
Qed.

Lemma apiRecord_round_trip_witness :
  fst (apiRecord (AddressOf (key 1)) longWorld)
  = ok "查询成功，记录已上链"
      {| QueryResult.exists_ := true;
         QueryResult.recordAddress := Some (key 1);
         QueryResult.signature := Some (toHex (Idl.signature longRecord));
         QueryResult.timestamp := Some 1700000000;
         QueryResult.owner := Some (key 7);
         QueryResult.costLamports := Some 2498640;
         QueryResult.originalString := Some (replicate 300 65%N) |}.
Proof.
  rewrite (apiRecord_round_trip (key 1) longRecord longWorld).
  - vm_compute. reflexivity.
  - vm_compute. reflexivity.
  - vm_compute. lia.
  - vm_compute. reflexivity.
  - vm_compute. reflexivity.
  - split; vm_compute; reflexivity.
  - split; vm_compute; [discriminate|reflexivity].
Defined.

(** ** A store, call by call *)

Lemma storeBody_run (k : PublicKey) (decodedData : jsstring) (w : World) :
  accepted decodedData ->
  Chain.lookup k (chain w) = None ->
  length (payer w) = 32%nat ->
  let stored := Chain.newRecord decodedData (payer w) (chain w) in
  let tx := Chain.processed (chain w) in
  storeBody k decodedData w
  = (inr {| StoreResult.signature := toHex (Idl.signature stored);
            StoreResult.recordAddress := k;
            StoreResult.costLamports := readCost stored;
            StoreResult.transactionSignature := tx;
            StoreResult.timestamp := readTimestamp stored;
            StoreResult.originalString := decodedData |},
     logRpc (RpcGetAccountInfo k)
       (logRpc (RpcConfirmTransaction tx)
          (setChain
             {| Chain.accounts := Chain.accounts (chain w) ++ [(k, Chain.encode stored)];
                Chain.clock := Chain.clock (chain w);
                Chain.fee := Chain.fee (chain w);
                Chain.processed := S tx |}
             (logRpc (RpcStoreString decodedData k) w)))).
Proof.
  intros Hacc Hfree Hpayer. cbv zeta.
  pose (stored := Chain.newRecord decodedData (payer w) (chain w)).
  assert (Hwf : wellFormed stored)
    by (apply newRecord_wellFormed; [apply Hacc|assumption]).
  unfold storeBody.
  erewrite bind_run; cycle 1.
  { unfold sendStoreString. cbv zeta. cbn [payer chain logRpc].
    rewrite storeString_accepts by assumption. reflexivity. }
  erewrite (bind_run (confirmTransaction _)) by reflexivity.
  erewrite bind_run; cycle 1.
  { apply readBack_found. cbn [chain logRpc setChain].
    eapply lookup_snoc_new; [exact Hfree|reflexivity]. }
  erewrite bind_run; cycle 1.
  { apply parse_encoded, Hwf. }
  reflexivity.
Qed.

Lemma readBack_calls (retries : nat) (k : PublicKey) (w w' : World)
    (out : Exception + Buffer) :
  readBack retries k w = (out, w') ->
  exists n,
    (n <= retries)%nat /\ (1 <= retries -> 1 <= n)%nat
    /\ rpcLog w' = rpcLog w ++ replicate n (RpcGetAccountInfo k).
Proof.
  revert w. induction retries as [|retries IH]; intros w; cbn [readBack].
  - intros [= _ <-]. exists 0%nat. cbn. rewrite app_nil_r. repeat split; lia.
  - unfold mbind, handler_bind, getAccountInfo.
    destruct (Chain.lookup k (chain w)).
    + intros [= _ <-]. exists 1%nat. repeat split; lia.
    + destruct retries as [|retries'].
      * intros [= _ <-]. exists 1%nat. repeat split; lia.
      * intros H. apply IH in H as (n & Hle & _ & Hlog).
        exists (S n). split; [lia|]. split; [lia|].
        rewrite Hlog. cbn [logRpc rpcLog replicate].
        rewrite <- app_assoc. reflexivity.
Qed.

(** The calls of a store that succeeded, in order: the [storeString]
    instruction with the decoded text at the generated address, the
    confirmation of the transaction whose identifier is answered, and
    then between one and five [getAccountInfo] on that address, nothing
    else. *)
Theorem store_calls_in_order (k : PublicKey) (s : jsstring) (w : World)
    (r : StoreResult.t) :
  data (fst (apiStore k (JString s) w)) = Some r ->
  exists n,
    (1 <= n <= 5)%nat
    /\ rpcLog (snd (apiStore k (JString s) w))
       = rpcLog w
         ++ [RpcStoreString (decodeBase64Text s) k;
             RpcConfirmTransaction (StoreResult.transactionSignature r)]
         ++ replicate n (RpcGetAccountInfo k).
Proof.
  intros H. apply apiStore_data in H as (s' & [= <-] & _ & Hb).
  destruct (apiStore k (JString s) w) as [response w']. cbn [snd] in *.
  unfold storeBody in Hb.
  apply bind_inr in Hb as (tx & w1 & Hsend & Hb).
  apply bind_inr in Hb as ([] & w2 & Hconf & Hb).
  apply bind_inr in Hb as (accountData & w3 & Hread & Hb).
  apply bind_inr in Hb as (record & w4 & Hparse & Hb).
  injection Hb as <- <-.
  apply sendStoreString_inr in Hsend as (_ & _ & _ & _ & _ & _ & Hlog1).
  injection Hconf as <-.
  apply readBack_calls in Hread as (n & Hle & Hge & Hlog3).
  apply parseAccountData_quiet in Hparse as ->.
  exists n. split; [lia|].
  rewrite Hlog3. cbn [logRpc rpcLog StoreResult.transactionSignature].
  rewrite Hlog1, <- !app_assoc. reflexivity.
Qed.

Lemma store_calls_in_order_witness :
  exists r n,
    data (fst (apiStore (key 1) (JString helloBase64) freshWorld)) = Some r
    /\ (1 <= n <= 5)%nat
    /\ rpcLog (snd (apiStore (key 1) (JString helloBase64) freshWorld))
       = rpcLog freshWorld
         ++ [RpcStoreString (decodeBase64Text helloBase64) (key 1);
             RpcConfirmTransaction (StoreResult.transactionSignature r)]
         ++ replicate n (RpcGetAccountInfo (key 1)).
Proof.
  destruct (data (fst (apiStore (key 1) (JString helloBase64) freshWorld)))
    as [r|] eqn:Hr; [|vm_compute in Hr; discriminate].
  destruct (store_calls_in_order (key 1) helloBase64 freshWorld r Hr)
    as (n & Hn & Hlog).
  exists r, n. split; [reflexivity|]. split; assumption.
Defined.

(** Store, then query by address: when a store has succeeded (the wallet
    key having its 32 bytes), the record endpoint asked for the address
    the store answered with reports exists = true, with the fingerprint,
    timestamp and cost of the store's answer, the wallet as owner, and
    the UTF-8 bytes of the answered string as text. *)
Theorem store_then_record (k : PublicKey) (s : jsstring) (w : World)
    (r : StoreResult.t) :
  length (payer w) = 32%nat ->
  data (fst (apiStore k (JString s) w)) = Some r ->
  fst (apiRecord (AddressOf (StoreResult.recordAddress r))
         (snd (apiStore k (JString s) w)))
  = ok "查询成功，记录已上链"
      {| QueryResult.exists_ := true;
         QueryResult.recordAddress := Some (StoreResult.recordAddress r);
         QueryResult.signature := Some (StoreResult.signature r);
         QueryResult.timestamp := Some (StoreResult.timestamp r);
         QueryResult.owner := Some (payer w);
         QueryResult.costLamports := Some (StoreResult.costLamports r);
         QueryResult.originalString :=
           Some (utf8Decode (utf8Encode (StoreResult.originalString r))) |}.
Proof.
  intros Hpayer H. apply apiStore_data in H as (s' & [= <-] & _ & Hb).
  destruct (apiStore k (JString s) w) as [response w']. cbn [snd] in *.
  pose proof Hb as Hinv.
  apply storeBody_inv in Hinv as (Hacc & Hfree & _).
  rewrite (storeBody_run k _ w Hacc Hfree Hpayer) in Hb.
  injection Hb as <- <-.
  pose (stored := Chain.newRecord (decodeBase64Text s) (payer w) (chain w)).
  assert (Hwf : wellFormed stored)
    by (apply newRecord_wellFormed; [apply Hacc|assumption]).
  destruct Hwf as (Hl & Hsig & Howner).
  cbn [StoreResult.recordAddress StoreResult.signature StoreResult.timestamp
       StoreResult.costLamports StoreResult.originalString].
  unfold apiRecord.
  erewrite recordBody_present; cycle 1.
  { cbn [chain logRpc setChain].
    eapply lookup_snoc_new; [exact Hfree|reflexivity]. }
  rewrite decodeRecord_encoded by (fold stored; first [lia|assumption]).
  reflexivity.
Qed.

Lemma store_then_record_witness :
  exists r,
    data (fst (apiStore (key 1) (JString helloBase64) freshWorld)) = Some r
    /\ fst (apiRecord (AddressOf (StoreResult.recordAddress r))
              (snd (apiStore (key 1) (JString helloBase64) freshWorld)))
       = ok "查询成功，记录已上链"
           {| QueryResult.exists_ := true;
              QueryResult.recordAddress := Some (StoreResult.recordAddress r);
              QueryResult.signature := Some (StoreResult.signature r);
              QueryResult.timestamp := Some (StoreResult.timestamp r);
              QueryResult.owner := Some (payer freshWorld);
              QueryResult.costLamports := Some (StoreResult.costLamports r);
              QueryResult.originalString :=
                Some (utf8Decode (utf8Encode (StoreResult.originalString r))) |}.
Proof.
  destruct (data (fst (apiStore (key 1) (JString helloBase64) freshWorld)))
    as [r|] eqn:Hr; [|vm_compute in Hr; discriminate].
  exists r. split; [reflexivity|].
  apply (store_then_record (key 1) helloBase64 freshWorld r);
    [vm_compute; reflexivity|exact Hr].
Defined.

(** The read-back loop gives up after exactly five [getAccountInfo]
    calls: while the account is missing it throws the "Account does not
    exist" error, and nothing but the log of calls has changed. *)
Theorem readBack_gives_up_after_five (k : PublicKey) (w : World) :
  Chain.lookup k (chain w) = None ->
  readBack 5 k w
  = (inl (AccountMissing k), Nat.iter 5 (logRpc (RpcGetAccountInfo k)) w).
Proof.
  assert (Hgen : forall n w,
             Chain.lookup k (chain w) = None ->
             readBack (S n) k w
             = (inl (AccountMissing k),
                Nat.iter (S n) (logRpc (RpcGetAccountInfo k)) w)).
  { induction n as [|n IH]; intros w0 H0.
    - cbn [readBack]. unfold mbind, handler_bind, getAccountInfo.
      rewrite H0. reflexivity.
    - rewrite Nat.iter_succ_r, <- IH by exact H0.
      change (readBack (S (S n)) k w0)
        with (getAccountInfo k ≫= (fun accountInfo =>
                match accountInfo with
                | Some accountData => mret accountData
                | None => readBack (S n) k
                end) $ w0).
      unfold mbind, handler_bind, getAccountInfo. rewrite H0. reflexivity. }
  apply Hgen.
Qed.

Lemma readBack_gives_up_after_five_witness :
  readBack 5 (key 9) freshWorld
  = (inl (AccountMissing (key 9)),
     Nat.iter 5 (logRpc (RpcGetAccountInfo (key 9))) freshWorld).
Proof.
  apply (readBack_gives_up_after_five (key 9) freshWorld).
  vm_compute. reflexivity.
Defined.

(** ** The GET handlers only read *)

Lemma apiQuery_quiet (param : jsstring) (w : World) :
  quiet w (snd (apiQuery param w)).
Proof.
  unfold apiQuery.
  destruct (bool_decide (param = [])); [apply quiet_refl|].
  destruct (decodeURIComponent param) as [s|]; [|apply quiet_refl].
  unfold queryBody. cbv zeta.
  destruct (negb _); [apply quiet_refl|].
  unfold mbind, handler_bind, getProgramAccounts.
  destruct (scanAccounts _ _) as [e|[found|]]; apply quiet_logRpc.
Qed.

Lemma apiRecord_quiet (address : AddressParam) (w : World) :
  quiet w (snd (apiRecord address w)).
Proof.
  destruct address as [| |k]; try apply quiet_refl.
  unfold apiRecord.
  destruct (Chain.lookup k (chain w)) as [accountData|] eqn:Hl.
  - rewrite (recordBody_present k accountData w Hl).
    destruct (decodeRecord_checked k accountData (logRpc (RpcGetAccountInfo k) w))
      as ([detail|found] & -> & _); apply quiet_logRpc.
  - rewrite (recordBody_absent k w Hl). apply quiet_logRpc.
Qed.

(** Neither GET handler writes, and each makes at most one call to the
    cluster. A query by string calls [getProgramAccounts] once exactly
    when its parameter is not empty, decodes, and the fingerprint of the
    decoded text is in the cache; otherwise it makes no call. A query by
    address calls [getAccountInfo] once on the key it was given, and
    makes no call for an empty or ill-formed address. Both leave the
    accounts, the cache and the wallet as they were. *)
Theorem get_handlers_only_read (param : jsstring) (address : AddressParam)
    (w : World) :
  (chain (snd (apiQuery param w)) = chain w
   /\ uploadedSignatures (snd (apiQuery param w)) = uploadedSignatures w
   /\ payer (snd (apiQuery param w)) = payer w
   /\ rpcLog (snd (apiQuery param w))
      = rpcLog w
        ++ (if bool_decide (param = []) then []
            else match decodeURIComponent param with
                 | None => []
                 | Some s =>
                   if bool_decide (toHex (md5Hash s) ∈ uploadedSignatures w)
                   then [RpcGetProgramAccounts] else []
                 end))
  /\ (chain (snd (apiRecord address w)) = chain w
      /\ uploadedSignatures (snd (apiRecord address w)) = uploadedSignatures w
      /\ payer (snd (apiRecord address w)) = payer w
      /\ rpcLog (snd (apiRecord address w))
         = rpcLog w
           ++ match address with
              | AddressOf k => [RpcGetAccountInfo k]
              | AddressEmpty | AddressInvalid => []
              end).
Proof.
  split.
  - destruct (apiQuery_quiet param w) as (Hc & Hu & Hp & _).
    split; [exact Hc|]. split; [exact Hu|]. split; [exact Hp|].
    unfold apiQuery.
    destruct (bool_decide (param = []));
      [cbn [snd]; rewrite app_nil_r; reflexivity|].
    destruct (decodeURIComponent param) as [s|];
      [|cbn [snd]; rewrite app_nil_r; reflexivity].
    unfold queryBody. cbv zeta.
    destruct (bool_decide (toHex (md5Hash s) ∈ uploadedSignatures w));
      cbn [negb]; [|cbn [snd]; rewrite app_nil_r; reflexivity].
    unfold mbind, handler_bind, getProgramAccounts.
    destruct (scanAccounts _ _) as [e|[found|]]; reflexivity.
  - destruct (apiRecord_quiet address w) as (Hc & Hu & Hp & _).
    split; [exact Hc|]. split; [exact Hu|]. split; [exact Hp|].
    destruct address as [| |k];
      try (cbn [apiRecord snd]; rewrite app_nil_r; reflexivity).
    unfold apiRecord.
    destruct (Chain.lookup k (chain w)) as [accountData|] eqn:Hl.
    + rewrite (recordBody_present k accountData w Hl).
      destruct (decodeRecord_checked k accountData (logRpc (RpcGetAccountInfo k) w))
        as ([detail|found] & -> & _); reflexivity.
    + rewrite (recordBody_absent k w Hl). reflexivity.
Qed.

(** Over any sequence of store requests served from any state, the
    stores that succeed answer with pairwise distinct addresses, each of
    them free before the sequence began: a store aimed at an address that
    holds an account is never answered with success. *)
Theorem successful_stores_have_distinct_addresses
    (requests : list (PublicKey * JsonValue)) (w : World) :
  NoDup (successAddresses (fst (runStores requests w)))
  /\ (forall a, a ∈ successAddresses (fst (runStores requests w)) ->
       Chain.lookup a (chain w) = None).
Proof.
  split; [|intros a; apply runStores_free].
  revert w. induction requests as [|[k' body] rest IH]; intros w.
  - cbn. constructor.
  - cbn [runStores].
    destruct (apiStore k' body w) as [response w1] eqn:E1.
    pose proof (runStores_free rest w1) as Hfree.
    specialize (IH w1).
    destruct (runStores rest w1) as [responses w2] eqn:E2.
    cbn [fst] in *. rewrite successAddresses_cons.
    destruct (data response) as [r|] eqn:Ed; [|exact IH].
    apply NoDup_cons. split; [|exact IH].
    intros Hin. apply Hfree in Hin.
    pose proof (apiStore_occupies k' body w r) as Hocc.
    rewrite E1 in Hocc. cbn [fst snd] in Hocc.
    destruct (Hocc Ed) as (Hk & _ & [x Hx]). congruence.
Qed.

(** ** The cache over the life of the process *)

Lemma serve_cache (request : Request) (w : World) :
  uploadedSignatures (serve request w) = uploadedSignatures w.
Proof.
  destruct request as [k body|param|address]; cbn [serve].
  - apply apiStore_effect.
  - apply apiQuery_quiet.
  - apply apiRecord_quiet.
Qed.

Lemma serveAll_cache (requests : list Request) (w : World) :
  uploadedSignatures (serveAll requests w) = uploadedSignatures w.
Proof.
  unfold serveAll. revert w.
  induction requests as [|request rest IH]; intros w; [reflexivity|].
  cbn [fold_left]. rewrite IH. apply serve_cache.
Qed.

(** No sequence of requests changes [uploadedSignatures]: the cache a
    process has after any number of stores, queries and record lookups is
    the one it started with. *)
Theorem cache_never_changes (requests : list Request) (w : World) :
  uploadedSignatures (serveAll requests w) = uploadedSignatures w.
Proof. apply serveAll_cache. Qed.

(** Hence on a server started with an empty cache no query by string ever
    reports a record, whatever was stored before it: every answer that
    carries a result says exists = false. *)
Theorem query_by_string_never_finds (requests : list Request) (w : World)
    (param : jsstring) (q : QueryResult.t) :
  uploadedSignatures w = ∅ ->
  data (fst (apiQuery param (serveAll requests w))) = Some q ->
  QueryResult.exists_ q = false.
Proof.
  intros Hempty Hq.
  pose proof (serveAll_cache requests w) as Hcache.
  rewrite Hempty in Hcache.
  destruct (decide (param = [])) as [->|Hne]; [discriminate|].
  destruct (decodeURIComponent param) as [s|] eqn:Hdec.
  - rewrite (apiQuery_decoded param s _ Hne Hdec) in Hq.
    rewrite bool_decide_eq_false_2 in Hq
      by (rewrite Hcache; apply not_elem_of_empty).
    injection Hq as <-. reflexivity.
  - unfold apiQuery in Hq. rewrite bool_decide_eq_false_2 in Hq by exact Hne.
    rewrite Hdec in Hq. discriminate.
Qed.

Lemma query_by_string_never_finds_witness :
  exists q,
    data (fst (apiQuery (lit "Hello")
                 (serveAll [PostStore (key 1) (JString helloBase64);
                            GetRecord (AddressOf (key 1))] freshWorld))) = Some q
    /\ QueryResult.exists_ q = false.
Proof.
  destruct (data (fst (apiQuery (lit "Hello")
                 (serveAll [PostStore (key 1) (JString helloBase64);
                            GetRecord (AddressOf (key 1))] freshWorld))))
    as [q|] eqn:Hq; [|vm_compute in Hq; discriminate].
  exists q. split; [reflexivity|].
  apply (query_by_string_never_finds
           [PostStore (key 1) (JString helloBase64); GetRecord (AddressOf (key 1))]
           freshWorld (lit "Hello") q); [reflexivity|exact Hq].
Defined.

(** Store, then query by string: a store adds nothing to the cache, so
    the query for a string whose fingerprint was not cached before the
    store answers exists = false after it, without a call to the
    cluster. *)
Theorem store_then_query_by_string (k : PublicKey) (body : JsonValue)
    (w : World) (param s : jsstring) :
  param <> [] ->
  decodeURIComponent param = Some s ->
  toHex (md5Hash s) ∉ uploadedSignatures w ->
  apiQuery param (snd (apiStore k body w))
  = (ok "未找到上链记录" (notFound s (toHex (md5Hash s))),
     snd (apiStore k body w)).
Proof.
  intros Hne Hdec Hmiss.
  rewrite (apiQuery_decoded param s _ Hne Hdec).
  rewrite bool_decide_eq_false_2; [reflexivity|].
  destruct (apiStore_effect k body w) as (-> & _). exact Hmiss.
Qed.

Lemma store_then_query_by_string_witness :
  apiQuery (lit "Hello") (snd (apiStore (key 1) (JString helloBase64) freshWorld))
  = (ok "未找到上链记录" (notFound (lit "Hello") (toHex (md5Hash (lit "Hello")))),
     snd (apiStore (key 1) (JString helloBase64) freshWorld)).
Proof.
  apply (store_then_query_by_string (key 1) (JString helloBase64) freshWorld
           (lit "Hello") (lit "Hello")).
  - vm_compute. discriminate.
  - vm_compute. reflexivity.
  - cbn [uploadedSignatures freshWorld]. apply not_elem_of_empty.
Defined.

(** Asked for an address, the record endpoint reports exists = false
    exactly when the cluster has no account there, and every answer that
    carries a result names the address asked for. *)
Theorem apiRecord_reports_absence (k : PublicKey) (w : World)
    (q : QueryResult.t) :
  data (fst (apiRecord (AddressOf k) w)) = Some q ->
  (QueryResult.exists_ q = false <-> Chain.lookup k (chain w) = None)
  /\ QueryResult.recordAddress q = Some k.
Proof.
  unfold apiRecord.
  destruct (Chain.lookup k (chain w)) as [accountData|] eqn:Hl.
  - rewrite (recordBody_present k accountData w Hl).
    destruct (decodeRecord_checked k accountData (logRpc (RpcGetAccountInfo k) w))
      as (answer & -> & Hbad & Hgood).
    cbv zeta in Hbad, Hgood.
    destruct (_ || _).
    + destruct (Hbad eq_refl) as [detail ->]. discriminate.
    + destruct (Hgood eq_refl) as (found & -> & Hex & Hk).
      cbn. intros [= <-]. rewrite Hex.
      split; [split; discriminate|exact Hk].
  - rewrite (recordBody_absent k w Hl). cbn. intros [= <-].
    split; [split; reflexivity|reflexivity].
Qed.

Lemma apiRecord_reports_absence_witness :
  exists q,
    data (fst (apiRecord (AddressOf (key 9)) longWorld)) = Some q
    /\ (QueryResult.exists_ q = false
        <-> Chain.lookup (key 9) (chain longWorld) = None)
    /\ QueryResult.recordAddress q = Some (key 9).
Proof.
  destruct (data (fst (apiRecord (AddressOf (key 9)) longWorld)))
    as [q|] eqn:Hq; [|vm_compute in Hq; discriminate].
  exists q. split; [reflexivity|].
  exact (apiRecord_reports_absence (key 9) longWorld q Hq).
Defined.

(** ** Fingerprints in answers *)

Lemma length_toHex (buf : Buffer) : length (toHex buf) = (2 * length buf)%nat.
Proof.
  unfold toHex. induction buf as [|x buf IH]; [reflexivity|].
  cbn [flat_map app length]. rewrite IH. lia.
Qed.

(** Every answer of the query by string that carries a result carries a
    fingerprint of 32 hexadecimal characters, found or not. *)
Theorem query_signature_has_32_characters (param : jsstring) (w : World)
    (q : QueryResult.t) :
  data (fst (apiQuery param w)) = Some q ->
  exists signatureHex,
    QueryResult.signature q = Some signatureHex
    /\ length signatureHex = 32%nat.
Proof.
  intros H. apply apiQuery_data in H as (s & _ & Hsig).
  eexists. split; [exact Hsig|].
  rewrite length_toHex. unfold md5Hash. rewrite length_md5Loop. reflexivity.
Qed.

Lemma query_signature_has_32_characters_witness :
  exists q signatureHex,
    data (fst (apiQuery (lit "Hello") freshWorld)) = Some q
    /\ QueryResult.signature q = Some signatureHex
    /\ length signatureHex = 32%nat.
Proof.
  destruct (data (fst (apiQuery (lit "Hello") freshWorld)))
    as [q|] eqn:Hq; [|vm_compute in Hq; discriminate].
  destruct (query_signature_has_32_characters (lit "Hello") freshWorld q Hq)
    as (signatureHex & Hsig & Hlen).
  exists q, signatureHex. split; [reflexivity|]. split; assumption.
Defined.

(** ** The [catch] block of POST /api/store *)

Lemma errorEntry_insufficientFunds :
  errorEntry "InsufficientFunds" = (1005, lit "SOL 余额不足").
Proof. vm_compute. reflexivity. Qed.

(** Whatever was thrown, the error answer of a store carries no result
    and one of the codes 500, 1001, .., 1005; its HTTP status is 500 for
    the code 500 and 400 for every other; and a message that contains
    [0x1] is answered as InsufficientFunds (1005) even when it names
    another error of the table. *)
Theorem storeFailure_codes (e : Exception) :
  let response : ApiResponse StoreResult.t := storeFailure e in
  success response = false
  /\ data response = None
  /\ In (code response) [500; 1001; 1002; 1003; 1004; 1005]
  /\ status response = (if code response =? 500 then 500 else 400)
  /\ (includes (thrownMessage e) (lit "0x1") = true -> code response = 1005).
Proof.
  cbv zeta. unfold storeFailure, classifyStoreError. cbv zeta.
  rewrite errorEntry_insufficientFunds.
  unfold ERROR_CODES, internalError. cbn [List.find fst snd].
  set (msg := thrownMessage e).
  destruct (includes msg (lit "0x1")).
  { cbn. repeat split; auto 10. }
  destruct (includes msg (lit "AlreadyExists"));
    [cbn; repeat split; auto 10; discriminate|].
  destruct (includes msg (lit "EmptyString"));
    [cbn; repeat split; auto 10; discriminate|].
  destruct (includes msg (lit "StringTooLong"));
    [cbn; repeat split; auto 10; discriminate|].
  destruct (includes msg (lit "AccountNotFound"));
    [cbn; repeat split; auto 10; discriminate|].
  destruct (includes msg (lit "InsufficientFunds"));
    cbn; repeat split; auto 10; discriminate.
Qed.

Lemma storeFailure_codes_witness :
  code (@storeFailure StoreResult.t
          (Error (lit "AlreadyExists: custom program error: 0x1771"))) = 1005.
Proof.
  apply (storeFailure_codes (Error (lit "AlreadyExists: custom program error: 0x1771"))).
  vm_compute. reflexivity.
Defined.
